(** * Resume-to-job matching pipeline: section parser and similarity ranker

    A shallow embedding of [main.py] (with [mock_embedding_service.py]):
    the line-classification parser [ResumeParser.parse], the similarity
    helper [cosine_similarity] and the ranking routine [rank_jobs].

    Conventions of the embedding.
    - A Python [str] is a [string]; every character is read as the code
      point of the same number (0..255), so the classification of
      characters below is the one of Python on that range.
    - A Python [float] is a real number: rounding, infinities and NaN are
      not represented.
    - A Python [dict] is a finite map; a job record lives in a store of
      objects and is named by its location, so that mutation in place and
      sharing are visible.
    - Code that can raise returns a sum whose left side is the exception. *)

From Stdlib Require Import Reals Lra ZArith Ascii String List Permutation Sorted.
From stdpp Require Import gmap strings list fin_maps pretty sorting.

(** ** Python string primitives *)

Module PyStr.

Definition ord (c : ascii) : N := N_of_ascii c.

Definition in_range (lo hi n : N) : bool := ((lo <=? n) && (n <=? hi))%N.

(** [str.isspace] on one character. *)
Definition isspace (c : ascii) : bool :=
  let n := ord c in
  in_range 9 13 n || in_range 28 32 n || (n =? 133)%N || (n =? 160)%N.

(** The line boundaries of [str.splitlines]. *)
Definition is_linebreak (c : ascii) : bool :=
  let n := ord c in
  in_range 10 13 n || in_range 28 30 n || (n =? 133)%N.

(** [str.lower] on one character. *)
Definition lower_char (c : ascii) : ascii :=
  let n := ord c in
  if in_range 65 90 n || (in_range 192 222 n && negb (n =? 215)%N)
  then ascii_of_N (n + 32) else c.

Fixpoint lower (s : string) : string :=
  match s with
  | EmptyString => EmptyString
  | String c s' => String (lower_char c) (lower s')
  end.

Fixpoint lstrip (s : string) : string :=
  match s with
  | EmptyString => EmptyString
  | String c s' => if isspace c then lstrip s' else s
  end.

Fixpoint rstrip (s : string) : string :=
  match s with
  | EmptyString => EmptyString
  | String c s' =>
      match rstrip s' with
      | EmptyString => if isspace c then EmptyString else String c EmptyString
      | r => String c r
      end
  end.

(** [str.strip()] *)
Definition strip (s : string) : string := rstrip (lstrip s).

Fixpoint rev_string (acc : list ascii) (s : string) : string :=
  match acc with
  | [] => s
  | c :: acc' => rev_string acc' (String c s)
  end.

(** [str.splitlines()]: [cur] holds the characters of the line being
    read, last one first. A carriage return followed by a line feed is
    one boundary; the text after the last boundary is a line only when it
    is not empty. *)
Fixpoint splitlines_from (cur : list ascii) (s : string) : list string :=
  match s with
  | EmptyString =>
      match cur with
      | [] => []
      | _ => [rev_string cur EmptyString]
      end
  | String c s' =>
      if is_linebreak c then
        match s' with
        | String d s'' =>
            if ((ord c =? 13)%N && (ord d =? 10)%N)%bool
            then rev_string cur EmptyString :: splitlines_from [] s''
            else rev_string cur EmptyString :: splitlines_from [] s'
        | EmptyString => rev_string cur EmptyString :: splitlines_from [] s'
        end
      else splitlines_from (c :: cur) s'
  end.

Definition splitlines (s : string) : list string := splitlines_from [] s.

(** [sep.join(l)] *)
Fixpoint join (sep : string) (l : list string) : string :=
  match l with
  | [] => EmptyString
  | [x] => x
  | x :: l' => x +:+ sep +:+ join sep l'
  end.

(** [needle in hay] *)
Fixpoint contains (needle hay : string) : bool :=
  String.prefix needle hay ||
  match hay with
  | EmptyString => false
  | String _ hay' => contains needle hay'
  end.

Definition newline : string := String (ascii_of_N 10) EmptyString.

End PyStr.

(** ** ResumeParser *)

Module ResumeParser.
Import PyStr.

(** A pattern of [SECTION_PATTERNS] is a parenthesised alternation of
    literal words, [(w1|w2|...)]; it is kept as the list of its words. *)
Definition pattern := list string.

(** [re.search(pat, s)]: some word of the alternation occurs in [s]. *)
Definition re_search (pat : pattern) (s : string) : bool :=
  existsb (fun w => contains w s) pat.

(** The class attribute, in its declared order (a Python dict iterates
    in insertion order). *)
Definition SECTION_PATTERNS : list (string * pattern) :=
  [ ("experience", ["experience"; "work history"; "employment"]);
    ("education", ["education"; "academic background"]);
    ("skills", ["skills"; "technical skills"; "abilities"]);
    ("projects", ["projects"; "personal projects"; "academic projects"]);
    ("leadership & awards", ["leadership"; "awards"; "honors"; "scholarship"]) ].

(** The inner [for key, pat in ... : if re.search(...): ... break]:
    the key of the first pattern that matches, if any. *)
Fixpoint first_match (pats : list (string * pattern)) (s : string) : option string :=
  match pats with
  | [] => None
  | (key, pat) :: rest => if re_search pat s then Some key else first_match rest s
  end.

(** The variables of the loop of [parse]. *)
Record pstate := PState {
  current_section : option string;
  sections : gmap string (list string)
}.

(** [{key: [] for key in self.SECTION_PATTERNS.keys()}], [None] *)
Definition init_state : pstate :=
  PState None (list_to_map (map (fun kp => (fst kp, @nil string)) SECTION_PATTERNS)).

(** One iteration of the loop over the lines. *)
Definition parse_line (st : pstate) (line : string) : pstate :=
  let clean_line := strip line in
  match clean_line with
  | EmptyString => st
  | _ =>
      match first_match SECTION_PATTERNS (lower clean_line) with
      | Some key => PState (Some key) (sections st)
      | None =>
          match current_section st with
          | Some cur =>
              PState (Some cur) (alter (fun v => v ++ [clean_line]) cur (sections st))
          | None => st
          end
      end
  end.

Definition parse_lines (st : pstate) (lines : list string) : pstate :=
  fold_left parse_line lines st.

(** The value built for one section by the final comprehension, [None]
    when the filter [if v] drops the key. *)
Definition section_text (v : list string) : option string :=
  match v with
  | [] => None
  | _ => Some (strip (join newline v))
  end.

Definition finish (st : pstate) : gmap string string :=
  omap section_text (sections st).

Definition parse (resume_text : string) : gmap string string :=
  finish (parse_lines init_state (splitlines resume_text)).

End ResumeParser.

(** ** Properties stated about the parser *)

Module ParserSpec.
Import PyStr ResumeParser.

(** No pattern of the list matches [s]. *)
Definition no_match (pats : list (string * pattern)) (s : string) : Prop :=
  Forall (fun kp => re_search (snd kp) s = false) pats.

(** [key] is the first section, in the declared order, whose pattern
    matches [s]. *)
Definition first_matching (key : string) (s : string) : Prop :=
  exists pre pat post,
    SECTION_PATTERNS = pre ++ (key, pat) :: post /\
    no_match pre s /\ re_search pat s = true.

(** A line that is kept as content: not blank and not a heading. *)
Definition content_line (line : string) : Prop :=
  strip line <> EmptyString /\
  no_match SECTION_PATTERNS (lower (strip line)).

(** A heading line of section [key]. *)
Definition heading_line (key : string) (line : string) : Prop :=
  strip line <> EmptyString /\ first_matching key (lower (strip line)).

(** The reading of the loop in which every line without a matching
    pattern goes to the accumulator of the active section. *)
Definition stores_every_unmatched_line : Prop :=
  forall (st : pstate) (line cur : string),
    no_match SECTION_PATTERNS (lower (strip line)) ->
    current_section st = Some cur ->
    sections (parse_line st line)
    = alter (fun v => v ++ [strip line]) cur (sections st).

(** The state of the loop right after a heading of the skills section, at
    the start of a document. *)
Definition skills_state : pstate := PState (Some "skills") (sections init_state).

(** What a run of lines without a heading adds to the accumulator of the
    active section: the trimmed texts of its lines that are not blank. *)
Definition contents (block : list string) : list string :=
  filter (fun s => s <> EmptyString) (map strip block).

(** Every element stored in an accumulator of [st] is the trimmed text
    of a content line of [lines]. *)
Definition stored_from (lines : list string) (st : pstate) : Prop :=
  forall k v x, sections st !! k = Some v -> In x v ->
    exists line, In line lines /\ content_line line /\ x = strip line.

(** A document as a reader sees it: a heading line of a section, then
    the lines that follow it up to the next heading. *)
Record block := Block {
  block_key : string;
  block_heading : string;
  block_lines : list string
}.

(** The heading of the block is a heading line of its section, and none
    of its other lines is a heading. *)
Definition block_ok (b : block) : Prop :=
  heading_line (block_key b) (block_heading b) /\
  Forall (fun line => no_match SECTION_PATTERNS (lower (strip line)))
    (block_lines b).

(** The lines of a document made of the lines [pre] before its first
    heading and of its blocks, in order. *)
Definition document (pre : list string) (blocks : list block) : list string :=
  pre ++ concat (map (fun b => block_heading b :: block_lines b) blocks).

(** The content lines that follow the headings of section [key], every
    occurrence counted, in the order of the document. *)
Definition lines_under (key : string) (blocks : list block) : list string :=
  concat (map (fun b => contents (block_lines b))
            (filter (fun b => block_key b = key) blocks)).

(** The entry made of the lines of a section: none without a line, the
    lines joined with newlines otherwise. *)
Definition entry (lines : list string) : option string :=
  match lines with
  | [] => None
  | _ => Some (String.concat newline lines)
  end.

(** A document in which the skills section has two headings, and its
    blocks. *)
Definition two_skills_resume : string :=
  "SKILLS" +:+ newline +:+ "Python" +:+ newline +:+ "EDUCATION" +:+ newline
  +:+ "SIUE" +:+ newline +:+ "Technical Skills" +:+ newline +:+ " SQL"
  +:+ newline +:+ "  " +:+ newline +:+ "Rocq ".

Definition two_skills_blocks : list block :=
  [ Block "skills" "SKILLS" ["Python"];
    Block "education" "EDUCATION" ["SIUE"];
    Block "skills" "Technical Skills" [" SQL"; "  "; "Rocq "] ].

End ParserSpec.

(** ** Exceptions, objects and the world *)

Inductive exn :=
| KeyError (key : string)
| ValueError
| TypeError.

(** The values held by the fields of a job record. *)
Inductive value :=
| VStr (s : string)
| VFloat (x : R).

(** An embedding vector. *)
Abbreviation vec := (list R).

(** A job record (a Python dict with string keys) and its identity. *)
Abbreviation pydict := (gmap string value).
Abbreviation loc := positive.

(** What a call can observe and change: the records, the CSV files (a file
    holds the rows written to it), the lines printed, and the batches sent
    to an embedding service. *)
Record world := World {
  heap : gmap loc pydict;
  files : gmap string (list pydict);
  stdout : list string;
  batch_calls : list (list string)
}.

(** A computation that may raise; the world changed so far is kept. *)
Definition M (A : Type) : Type := world -> (exn + A) * world.

Definition ret {A} (a : A) : M A := fun w => (inr a, w).

Definition raise {A} (e : exn) : M A := fun w => (inl e, w).

Definition bind {A B} (m : M A) (k : A -> M B) : M B :=
  fun w =>
    match m w with
    | (inl e, w') => (inl e, w')
    | (inr a, w') => k a w'
    end.

Definition lift {A} (r : exn + A) : M A :=
  match r with
  | inl e => raise e
  | inr a => ret a
  end.

Declare Scope py_scope.
Delimit Scope py_scope with py.
Notation "x <- m ;; k" := (bind m (fun x => k))
  (at level 100, m at next level, right associativity) : py_scope.
Notation "m ;;; k" := (bind m (fun _ => k))
  (at level 100, right associativity) : py_scope.

(** [for x in xs: body(x)] *)
Fixpoint for_each {A} (body : A -> M unit) (xs : list A) : M unit :=
  match xs with
  | [] => ret tt
  | x :: xs' => (body x ;;; for_each body xs')%py
  end.

(** [[f(x) for x in xs]] *)
Fixpoint map_m {A B} (f : A -> M B) (xs : list A) : M (list B) :=
  match xs with
  | [] => ret []
  | x :: xs' => (y <- f x ;; ys <- map_m f xs' ;; ret (y :: ys))%py
  end.

(** The record at a location. *)
Definition deref (w : world) (l : loc) : pydict := default ∅ (heap w !! l).

(** [job[key]] *)
Definition getitem (l : loc) (key : string) : M value :=
  fun w =>
    match deref w l !! key with
    | Some v => (inr v, w)
    | None => (inl (KeyError key), w)
    end.

(** [job[key] = v] *)
Definition setitem (l : loc) (key : string) (v : value) : M unit :=
  fun w =>
    (inr tt,
     World (<[l := <[key := v]> (deref w l)]> (heap w))
           (files w) (stdout w) (batch_calls w)).

(** [print(msg)]. The pictograph that opens the messages of the source
    is left out of the texts below. *)
Definition print (msg : string) : M unit :=
  fun w => (inr tt, World (heap w) (files w) (stdout w ++ [msg]) (batch_calls w)).

(** ** Embedding services *)

(** [IEmbeddingService]: the two abstract methods. *)
Record IEmbeddingService := {
  get_embedding : string -> option vec;
  get_embeddings_batch : list string -> list vec
}.

(** The [SentenceTransformer] model behind [HFEmbeddingService]. *)
Record SentenceTransformer := {
  encode : string -> vec;
  encode_batch : list string -> list vec
}.

Definition HFEmbeddingService (model : SentenceTransformer) : IEmbeddingService :=
  {| get_embedding text :=
       match PyStr.strip text with
       | EmptyString => None
       | _ => Some (encode model text)
       end;
     get_embeddings_batch texts := encode_batch model texts |}.

Definition MockEmbeddingService : IEmbeddingService :=
  {| get_embedding _ := Some [1; 0; 0]%R;
     get_embeddings_batch texts := map (fun _ => [1; 0; 0]%R) texts |}.

(** The call [embedding_service.get_embeddings_batch(texts)], recorded. *)
Definition call_batch (svc : IEmbeddingService) (texts : list string) : M (list vec) :=
  fun w =>
    (inr (get_embeddings_batch svc texts),
     World (heap w) (files w) (stdout w) (batch_calls w ++ [texts])).

(** ** Cosine similarity *)

Fixpoint dot (u v : vec) : R :=
  match u, v with
  | x :: u', y :: v' => (x * y + dot u' v')%R
  | _, _ => 0%R
  end.

(** Modelled from the spec: [scipy.spatial.distance.cosine], which is
    imported and not part of the sources. It is one minus the dot product
    of the two vectors divided by the product of their magnitudes, over the
    real numbers, and a [ValueError] when the two lengths differ. For a
    vector of magnitude zero the library yields no number; the value given
    here is then without meaning. *)
Definition cosine (u v : vec) : exn + R :=
  if (length u =? length v)%nat
  then inr (1 - dot u v / sqrt (dot u u * dot v v))%R
  else inl ValueError.

Definition cosine_similarity (vec1 vec2 : vec) : exn + R :=
  match cosine vec1 vec2 with
  | inl e => inl e
  | inr d => inr (1 - d)%R
  end.

(** ** JobCSVHandler.save_jobs *)

Definition save_jobs (jobs : list loc) (filename : string) : M unit :=
  match jobs with
  | [] => print ("No jobs to save to " +:+ filename +:+ ".")
  | _ =>
      (fun w =>
         (inr tt,
          World (heap w) (<[filename := map (deref w) jobs]> (files w))
                (stdout w ++ ["Saved " +:+ pretty (length jobs) +:+ " jobs to "
                              +:+ filename])
                (batch_calls w)))
  end.

(** ** sorted(jobs, key=..., reverse=True) *)

Definition Rltb (x y : R) : bool := if Rlt_dec x y then true else false.

(** [a < b] on field values; a string and a number do not compare. *)
Definition value_lt (a b : value) : exn + bool :=
  match a, b with
  | VFloat x, VFloat y => inr (Rltb x y)
  | VStr s, VStr t => inr (String.ltb s t)
  | _, _ => inl TypeError
  end.

(** The built-in sort: stable, ascending, and comparing keys with [<]
    only. It is written as an insertion sort: an element goes before the
    first element that is not smaller than it. *)
Fixpoint insert_keyed {A} (x : value * A) (s : list (value * A))
    : exn + list (value * A) :=
  match s with
  | [] => inr [x]
  | y :: s' =>
      match value_lt (fst y) (fst x) with
      | inl e => inl e
      | inr true =>
          match insert_keyed x s' with
          | inl e => inl e
          | inr r => inr (y :: r)
          end
      | inr false => inr (x :: s)
      end
  end.

Fixpoint sort_keyed {A} (l : list (value * A)) : exn + list (value * A) :=
  match l with
  | [] => inr []
  | x :: l' =>
      match sort_keyed l' with
      | inl e => inl e
      | inr s => insert_keyed x s
      end
  end.

(** With [reverse=True] the list is reversed, sorted and reversed again,
    which keeps elements of equal key in their original order. *)
Definition sort_keyed_reverse {A} (l : list (value * A)) : exn + list (value * A) :=
  match sort_keyed (reverse l) with
  | inl e => inl e
  | inr s => inr (reverse s)
  end.

(** [sorted(jobs, key=lambda x: x["similarity_score"], reverse=True)]:
    the keys are read first, in order, then the list is sorted. *)
Definition sorted_by_score (jobs : list loc) : M (list loc) :=
  (keys <- map_m (fun job => getitem job "similarity_score") jobs ;;
   s <- lift (sort_keyed_reverse (zip keys jobs)) ;;
   ret (map snd s))%py.

(** ** Properties stated about the ranker *)

(** A vector with a component that is not zero. *)
Definition nonzero (v : vec) : Prop := Exists (fun x => x <> 0%R) v.

#[global] Instance R_eq_dec : EqDecision R := Req_dec_T.

(** [r] is [l] sorted by decreasing [f], elements of equal [f] staying in
    the order they have in [l]: for each value of [f], the elements having
    it form the same sequence in [r] as in [l]. *)
Definition stable_sorted_desc {A} (f : A -> R) (l r : list A) : Prop :=
  Permutation l r /\
  StronglySorted (fun a b => (f b <= f a)%R) r /\
  forall x : R, filter (fun a => f a = x) r = filter (fun a => f a = x) l.

(** The record has the three fields from which its text is built. *)
Definition has_text_fields (w : world) (job : loc) : Prop :=
  is_Some (deref w job !! "title") /\
  is_Some (deref w job !! "company") /\
  is_Some (deref w job !! "description").

(** The number held by the [similarity_score] field of a record. *)
Definition score_of (h : gmap loc pydict) (job : loc) : R :=
  match default ∅ (h !! job) !! "similarity_score" with
  | Some (VFloat x) => x
  | _ => 0%R
  end.

(** The rows that [save_jobs] writes for a list of records. *)
Definition rows_of (h : gmap loc pydict) (jobs : list loc) : list pydict :=
  map (fun job => default ∅ (h !! job)) jobs.

(** ** rank_jobs *)

(** [l[:n]] *)
Definition slice_to {A} (l : list A) (n : Z) : list A :=
  if (0 <=? n)%Z then take (Z.to_nat n) l
  else take (length l - Z.to_nat (- n)) l.

Section Ranking.

(** The text that an f-string gives for a number. *)
Variable float_repr : R -> string.

(** The model that [HFEmbeddingService()] loads. *)
Variable default_model : SentenceTransformer.

Definition format_value (v : value) : string :=
  match v with
  | VStr s => s
  | VFloat x => float_repr x
  end.

(** [f"{job['title']} {job['company']} {job['description']}"] *)
Definition job_text (job : loc) : M string :=
  (title <- getitem job "title" ;;
   company <- getitem job "company" ;;
   description <- getitem job "description" ;;
   ret (format_value title +:+ " " +:+ format_value company +:+ " "
        +:+ format_value description))%py.

(** The body of the scoring loop. *)
Definition score_job (resume_embedding : vec) (pair : loc * vec) : M unit :=
  (s <- lift (cosine_similarity resume_embedding (snd pair)) ;;
   setitem (fst pair) "similarity_score" (VFloat s))%py.

Definition rank_jobs (resume_embedding : vec) (jobs : list loc) (top_n : Z)
    (embedding_service : option IEmbeddingService) (output_csv : string)
    : M (list loc) :=
  match jobs with
  | [] => (print "No jobs to rank." ;;; ret [])%py
  | _ =>
      let embedding_service :=
        match embedding_service with
        | None => HFEmbeddingService default_model
        | Some svc => svc
        end in
      (job_texts <- map_m job_text jobs ;;
       job_embeddings <- call_batch embedding_service job_texts ;;
       for_each (score_job resume_embedding) (zip jobs job_embeddings) ;;;
       ranked_jobs <- sorted_by_score jobs ;;
       save_jobs (slice_to ranked_jobs top_n) output_csv ;;;
       ret (slice_to ranked_jobs top_n))%py
  end.

(** The text built for a record, when all its fields are there. *)
Definition text_of (w : world) (job : loc) : string :=
  match fst (job_text job w) with
  | inr s => s
  | inl _ => EmptyString
  end.

(** What the service answers to the texts of the records. *)
Definition batch_result (svc : IEmbeddingService) (w : world) (jobs : list loc)
    : list vec :=
  get_embeddings_batch svc (map (text_of w) jobs).

(** The text of a field, the empty string when the record lacks it. *)
Definition field_or_empty (w : world) (job : loc) (key : string) : string :=
  match deref w job !! key with
  | Some v => format_value v
  | None => EmptyString
  end.

(** The reading in which a missing field counts as the empty string. *)
Definition missing_fields_read_as_empty : Prop :=
  forall (w : world) (job : loc),
    job_text job w
    = (inr (field_or_empty w job "title" +:+ " " +:+ field_or_empty w job "company"
            +:+ " " +:+ field_or_empty w job "description"), w).

(** The reading in which a batch result of the wrong length makes the
    call raise. *)
Definition length_mismatch_raises : Prop :=
  forall resume_embedding jobs top_n svc output_csv w,
    jobs <> [] ->
    Forall (has_text_fields w) jobs ->
    length (batch_result svc w jobs) <> length jobs ->
    exists e,
      fst (rank_jobs resume_embedding jobs top_n (Some svc) output_csv w) = inl e.

(** The reading in which ranking leaves the files alone. *)
Definition ranking_writes_no_file : Prop :=
  forall resume_embedding jobs top_n svc output_csv w,
    files (snd (rank_jobs resume_embedding jobs top_n svc output_csv w)) = files w.

End Ranking.

(** ** Sample data, after the test suite *)

Definition sample_float_repr (x : R) : string := "<float>".

Definition sample_model : SentenceTransformer :=
  {| encode _ := [1; 0; 0]%R;
     encode_batch texts := map (fun _ => [1; 0; 0]%R) texts |}.

Definition job1 : pydict :=
  {[ "title" := VStr "Job1"; "company" := VStr "A"; "description" := VStr "desc1" ]}.

Definition job2 : pydict :=
  {[ "title" := VStr "Job2"; "company" := VStr "B"; "description" := VStr "desc2" ]}.

(** A record without its [company] field. *)
Definition job_without_company : pydict :=
  {[ "title" := VStr "Job3"; "description" := VStr "desc3" ]}.

(** A record that was scored by an earlier call. *)
Definition job_scored_before : pydict :=
  {[ "title" := VStr "Job4"; "company" := VStr "D"; "description" := VStr "desc4";
     "similarity_score" := VFloat 0.5%R ]}.

(** The records [job1] and [job2] at locations 1 and 2, a record without
    company at location 3, a record scored before at location 4, no file,
    nothing printed, no call made. *)
Definition sample_world : world :=
  World {[ 1%positive := job1; 2%positive := job2;
           3%positive := job_without_company;
           4%positive := job_scored_before ]} ∅ [] [].

(** A service that answers with a fixed list of vectors, whatever the
    number of texts. *)
Definition fixed_service (answer : list vec) : IEmbeddingService :=
  {| get_embedding _ := None;
     get_embeddings_batch _ := answer |}.

(** ** Further notions about texts and the parser *)

(** The section names, in their declared order. *)
Definition section_names : list string := map fst ResumeParser.SECTION_PATTERNS.

(** A text made of white space only. *)
Fixpoint all_space (s : string) : bool :=
  match s with
  | EmptyString => true
  | String c s' => PyStr.isspace c && all_space s'
  end.

(** A line as the parser stores it: trimmed and not empty. *)
Definition trimmed (x : string) : Prop := x <> EmptyString /\ PyStr.strip x = x.

(** ** Further notions about vectors *)

(** The vector [v] with every component multiplied by [k]. *)
Definition scale (k : R) (v : vec) : vec := map (Rmult k) v.

(** ** JobFetcher *)

(** [d.get(key, "")] *)
Definition dict_get (d : pydict) (key : string) : value :=
  default (VStr EmptyString) (d !! key).

(** [a + b] on field values: texts are concatenated, numbers added, and
    a text and a number do not add. *)
Definition py_add (a b : value) : exn + value :=
  match a, b with
  | VStr s, VStr t => inr (VStr (s +:+ t))
  | VFloat x, VFloat y => inr (VFloat (x + y))
  | _, _ => inl TypeError
  end.

(** The record appended for one record [job] of the answer; the values
    are evaluated in the order of the dict display, the sum of the
    [location] last. *)
Definition convert_job (job : pydict) : exn + pydict :=
  match py_add (dict_get job "job_city") (VStr ", ") with
  | inl e => inl e
  | inr city_comma =>
      match py_add city_comma (dict_get job "job_country") with
      | inl e => inl e
      | inr location =>
          inr {[ "title" := dict_get job "job_title";
                 "company" := dict_get job "employer_name";
                 "publisher" := dict_get job "job_publisher";
                 "employment_type" := dict_get job "job_employment_type";
                 "description" := dict_get job "job_description";
                 "location" := location ]}
      end
  end.

(** [for job in data: jobs.append({...})]: the list as the loop leaves
    it, and the exception that stopped it, if any. *)
Fixpoint convert_page (jobs : list pydict) (data : list pydict)
    : list pydict * option exn :=
  match data with
  | [] => (jobs, None)
  | job :: data' =>
      match convert_job job with
      | inl e => (jobs, Some e)
      | inr r => convert_page (jobs ++ [r]) data'
      end
  end.

(** What one [requests.get] of the loop comes to: an exception raised by
    the request or by the decoding of its body, or a status code with the
    list under the key [data] of the body (the empty list when the key is
    absent). The values of a record of the answer are texts or numbers. *)
Inductive http_response :=
| RequestError
| Response (status_code : Z) (data : list pydict).

(** The variables of the loop of [fetch_jobs], with the pages asked for
    and the lines printed so far. *)
Record fetch_state := FetchState {
  fetched : list pydict;
  page : Z;
  requested : list Z;
  printed : list string
}.

Definition fetch_start : fetch_state := FetchState [] 1 [] [].

(** One turn of [while len(jobs) < max_jobs]: on the left the state in
    which the loop ends, on the right the state in which it goes on. The
    text of a caught exception is left out of the line printed for it. *)
Definition fetch_step (get : Z -> http_response) (max_jobs : Z) (st : fetch_state)
    : fetch_state + fetch_state :=
  if (Z.of_nat (length (fetched st)) <? max_jobs)%Z then
    let asked := requested st ++ [page st] in
    match get (page st) with
    | RequestError =>
        inl (FetchState (fetched st) (page st) asked
               (printed st ++ ["API request error"]))
    | Response status_code data =>
        if negb (status_code =? 200)%Z then
          inl (FetchState (fetched st) (page st) asked
                 (printed st ++ ["API request failed with status code "
                                 +:+ pretty status_code]))
        else
          match data with
          | [] =>
              inl (FetchState (fetched st) (page st) asked
                     (printed st ++ ["No more jobs returned from API."]))
          | _ =>
              match convert_page (fetched st) data with
              | (jobs, Some _) =>
                  inl (FetchState jobs (page st) asked
                         (printed st ++ ["API request error"]))
              | (jobs, None) =>
                  if (max_jobs <=? Z.of_nat (length jobs))%Z
                  then inl (FetchState jobs (page st + 1) asked (printed st))
                  else inr (FetchState jobs (page st + 1) asked (printed st))
              end
          end
    end
  else inl st.

(** The loop, run for at most [turns] turns. *)
Fixpoint fetch_loop (turns : nat) (get : Z -> http_response) (max_jobs : Z)
    (st : fetch_state) : fetch_state :=
  match turns with
  | O => st
  | S turns' =>
      match fetch_step get max_jobs st with
      | inl final => final
      | inr next => fetch_loop turns' get max_jobs next
      end
  end.

(** The loop from a state: every turn that goes on adds a record, so the
    number of records still wanted bounds the number of turns. *)
Definition fetch_pages (get : Z -> http_response) (max_jobs : Z) (st : fetch_state)
    : fetch_state :=
  fetch_loop (Z.to_nat (max_jobs - Z.of_nat (length (fetched st)))) get max_jobs st.

(** The number of records still wanted in a state of the loop. *)
Definition records_wanted (max_jobs : Z) (st : fetch_state) : nat :=
  Z.to_nat (max_jobs - Z.of_nat (length (fetched st))).

(** The keys of a record built by [fetch_jobs]. *)
Definition job_keys : gset string :=
  {[ "title"; "company"; "publisher"; "employment_type"; "description";
     "location" ]}.

(** What holds of the state while the loop goes on: the records have the
    six keys, the pages asked for are 1, 2, ... up to the one before the
    current page, each of them has brought a record, and there are no more
    of them than records asked for. *)
Definition fetch_running (max_jobs : Z) (st : fetch_state) : Prop :=
  Forall (fun r => dom r = job_keys) (fetched st) /\
  requested st = seqZ 1 (Z.of_nat (length (requested st))) /\
  page st = (1 + Z.of_nat (length (requested st)))%Z /\
  (length (requested st) <= length (fetched st))%nat /\
  (length (requested st) <= Z.to_nat max_jobs)%nat.

(** What holds of the state in which the loop ends. *)
Definition fetch_finished (max_jobs : Z) (st : fetch_state) : Prop :=
  Forall (fun r => dom r = job_keys) (fetched st) /\
  requested st = seqZ 1 (Z.of_nat (length (requested st))) /\
  (length (requested st) <= Z.to_nat max_jobs)%nat.

(** The creation of a record. *)
Definition alloc (d : pydict) : M loc :=
  fun w =>
    let l := fresh (dom (heap w)) in
    (inr l, World (<[l := d]> (heap w)) (files w) (stdout w) (batch_calls w)).

Definition default_jobs_file : string := "jsearch_jobs_data.csv".

Section Fetching.

(** The search service: the answer to the request for a page of a query
    at a location, made with an API key. *)
Variable requests_get : string -> string -> string -> Z -> http_response.

(** [JobFetcher(api_key).fetch_jobs(query, location, max_jobs)] *)
Definition fetch_jobs (api_key query location : string) (max_jobs : Z)
    : M (list loc) :=
  let st := fetch_pages (requests_get api_key query location) max_jobs fetch_start in
  (for_each print (printed st) ;;;
   created <- map_m alloc (fetched st) ;;
   let jobs := slice_to created max_jobs in
   match jobs with
   | [] => print "No jobs fetched from API."
   | _ => save_jobs jobs default_jobs_file
   end ;;;
   ret jobs)%py.

End Fetching.

(** ** extract_text_from_pdf *)

(** The text of the pages of a document, as [page.extract_text()] gives
    it: nothing, or a text. *)
Definition extract_text_from_pdf (pages : list (option string)) : string :=
  PyStr.strip
    (fold_left
       (fun text page_text =>
          match page_text with
          | Some (String c s) => text +:+ String c s +:+ PyStr.newline
          | _ => text
          end)
       pages EmptyString).

(** A page that gives no text or white space only. *)
Definition blank_page (page_text : option string) : Prop :=
  match page_text with
  | None => True
  | Some t => all_space t = true
  end.

(** ** Sample answers of the search service *)

Definition api_job (title city country : string) : pydict :=
  {[ "job_title" := VStr title; "employer_name" := VStr "Acme";
     "job_description" := VStr "desc"; "job_city" := VStr city;
     "job_country" := VStr country ]}.

(** Two records on page 1, one on page 2, nothing after. *)
Definition sample_api (api_key query location : string) (p : Z) : http_response :=
  if (p =? 1)%Z then
    Response 200 [api_job "Analyst" "Boston" "US"; api_job "Engineer" "Paris" "FR"]
  else if (p =? 2)%Z then Response 200 [api_job "Scientist" "Lagos" "NG"]
  else Response 200 [].

(** A service that is down. *)
Definition failing_api (api_key query location : string) (p : Z) : http_response :=
  Response 503 [].

(** The record that [fetch_jobs] builds from [api_job title city country]. *)
Definition fetched_job (title city country : string) : pydict :=
  {[ "title" := VStr title; "company" := VStr "Acme";
     "publisher" := VStr EmptyString; "employment_type" := VStr EmptyString;
     "description" := VStr "desc";
     "location" := VStr (city +:+ ", " +:+ country) ]}.

(** * Theorems *)

(** ** The section parser *)

Section ParserFacts.
Import PyStr ResumeParser ParserSpec.

Lemma first_match_none pats s :
  first_match pats s = None <-> no_match pats s.
Proof.
  unfold no_match. induction pats as [|[k p] pats IH]; simpl.
  - split; [constructor | done].
  - destruct (re_search p s) eqn:E.
    + split; [done | intros H; inversion H; simpl in *; congruence].
    + rewrite IH. split; [by constructor | by inversion 1].
Qed.

Lemma first_match_some pats s key :
  first_match pats s = Some key <->
  exists pre pat post,
    pats = pre ++ (key, pat) :: post /\ no_match pre s /\ re_search pat s = true.
Proof.
  induction pats as [|[k p] pats IH]; simpl.
  - split; [done | intros (pre & ? & ? & H & _); by destruct pre].
  - destruct (re_search p s) eqn:E.
    + split.
      * intros [= ->]. exists [], p, pats. repeat split; [constructor | done].
      * intros (pre & pat & post & Heq & Hpre & Hpat).
        destruct pre as [|q pre]; simpl in Heq; inversion Heq; subst; [done|].
        inversion Hpre; simpl in *; congruence.
    + rewrite IH. split.
      * intros (pre & pat & post & -> & Hpre & Hpat).
        exists ((k, p) :: pre), pat, post. repeat split; [by constructor | done].
      * intros (pre & pat & post & Heq & Hpre & Hpat).
        destruct pre as [|q pre]; simpl in Heq; inversion Heq; subst; [congruence|].
        inversion Hpre; subst. eauto 6.
Qed.

Lemma parse_line_blank st line :
  strip line = EmptyString -> parse_line st line = st.
Proof. unfold parse_line. by intros ->. Qed.

Lemma parse_line_heading st line key :
  heading_line key line -> parse_line st line = PState (Some key) (sections st).
Proof.
  intros [Hne Hm]. apply first_match_some in Hm. unfold parse_line.
  destruct (strip line) eqn:E; [done|]. by rewrite Hm.
Qed.

Lemma parse_line_content st line :
  content_line line ->
  parse_line st line =
    match current_section st with
    | Some cur => PState (Some cur) (alter (fun v => v ++ [strip line]) cur (sections st))
    | None => st
    end.
Proof.
  intros [Hne Hm]. apply first_match_none in Hm. unfold parse_line.
  destruct (strip line) eqn:E; [done|]. by rewrite Hm.
Qed.

(** Every line is blank, a heading or content. *)
Lemma line_cases line :
  strip line = EmptyString \/ (exists key, heading_line key line) \/ content_line line.
Proof.
  destruct (strip line) eqn:E; [by left | right].
  destruct (first_match SECTION_PATTERNS (lower (strip line))) as [key|] eqn:F.
  - left. exists key. split; [by rewrite E|]. by apply first_match_some.
  - right. split; [by rewrite E|]. by apply first_match_none.
Qed.

Lemma parse_lines_app st l1 l2 :
  parse_lines st (l1 ++ l2) = parse_lines (parse_lines st l1) l2.
Proof. apply fold_left_app. Qed.

Lemma parse_lines_block cur secs block :
  Forall (fun line => no_match SECTION_PATTERNS (lower (strip line))) block ->
  parse_lines (PState (Some cur) secs) block
  = PState (Some cur) (alter (fun v => v ++ contents block) cur secs).
Proof.
  revert secs. induction block as [|l block IH]; intros secs Hb; simpl.
  - f_equal. apply map_eq. intros k. rewrite lookup_alter.
    case_decide; [|done]. subst k. destruct (secs !! cur); simpl; [|done].
    by rewrite app_nil_r.
  - inversion Hb as [|? ? Hl Hb']; subst. unfold contents. simpl.
    destruct (decide (strip l = EmptyString)) as [E|E].
    + rewrite parse_line_blank by done.
      rewrite filter_cons_False by (intros H; by apply H).
      by apply IH.
    + rewrite parse_line_content by done. simpl.
      rewrite filter_cons_True by done.
      rewrite IH by done. f_equal. apply map_eq. intros k.
      rewrite !lookup_alter. case_decide; [|done]. subst k.
      rewrite decide_True by done.
      destruct (secs !! cur); simpl; [|done]. by rewrite <- app_assoc.
Qed.

(** The accumulators only grow. *)
Lemma parse_line_extends st line k v :
  sections st !! k = Some v ->
  exists more, sections (parse_line st line) !! k = Some (v ++ more).
Proof.
  intros Hk. destruct (line_cases line) as [Hb|[[key Hh]|Hc]].
  - rewrite parse_line_blank by done. exists []. by rewrite app_nil_r.
  - rewrite (parse_line_heading _ _ key) by done. exists []. by rewrite app_nil_r.
  - rewrite parse_line_content by done.
    destruct (current_section st) as [cur|]; simpl.
    + rewrite lookup_alter. case_decide.
      * subst. rewrite Hk. simpl. eauto.
      * exists []. by rewrite app_nil_r.
    + exists []. by rewrite app_nil_r.
Qed.

Lemma parse_lines_extends lines st k v :
  sections st !! k = Some v ->
  exists more, sections (parse_lines st lines) !! k = Some (v ++ more).
Proof.
  revert st v. induction lines as [|l lines IH]; intros st v Hk; simpl.
  - exists []. by rewrite app_nil_r.
  - destruct (parse_line_extends st l k v Hk) as [m1 H1].
    destruct (IH _ _ H1) as [m2 H2]. exists (m1 ++ m2). by rewrite app_assoc.
Qed.

Lemma init_sections_lookup key pat :
  In (key, pat) SECTION_PATTERNS -> sections init_state !! key = Some [].
Proof.
  simpl. intros H.
  repeat (destruct H as [H|H]; [inversion H; subst; reflexivity|]). done.
Qed.

Lemma first_matching_key key s :
  first_matching key s -> exists pat, In (key, pat) SECTION_PATTERNS.
Proof.
  intros (pre & pat & post & -> & _). exists pat.
  apply in_or_app. right. by left.
Qed.

Lemma stored_from_step lines st line :
  stored_from lines st -> stored_from (lines ++ [line]) (parse_line st line).
Proof.
  intros Hst k v x Hk Hx.
  assert (Hweak : forall k v x, sections st !! k = Some v -> In x v ->
     exists l0, In l0 (lines ++ [line]) /\ content_line l0 /\ x = strip l0).
  { intros k0 v0 x0 H1 H2. destruct (Hst k0 v0 x0 H1 H2) as (l0 & ? & ? & ?).
    exists l0. split; [apply in_or_app; by left | done]. }
  destruct (line_cases line) as [Hb|[[key Hh]|Hc]].
  - rewrite parse_line_blank in Hk by done. eauto.
  - rewrite (parse_line_heading _ _ key) in Hk by done. eauto.
  - rewrite parse_line_content in Hk by done.
    destruct (current_section st) as [cur|]; simpl in Hk; [|eauto].
    rewrite lookup_alter in Hk. case_decide; [|eauto]. subst k.
    destruct (sections st !! cur) as [v0|] eqn:E; simpl in Hk; [|done].
    inversion Hk; subst v. apply in_app_or in Hx. destruct Hx as [Hx|Hx]; [eauto|].
    destruct Hx as [<-|[]]. exists line. split; [|done].
    apply in_or_app. right. by left.
Qed.

Lemma stored_from_lines done_lines lines st :
  stored_from done_lines st ->
  stored_from (done_lines ++ lines) (parse_lines st lines).
Proof.
  revert done_lines st. induction lines as [|l lines IH]; intros dl st H; simpl.
  - by rewrite app_nil_r.
  - replace (dl ++ l :: lines) with ((dl ++ [l]) ++ lines)
      by (by rewrite <- app_assoc).
    apply IH. by apply stored_from_step.
Qed.

Lemma stored_from_init : stored_from [] init_state.
Proof.
  intros k v x Hk Hx. exfalso. simpl in Hk.
  repeat (rewrite lookup_insert in Hk; case_decide;
          [inversion Hk; subst; by destruct Hx|]).
  by rewrite lookup_empty in Hk.
Qed.

(** Without a heading the state stays the initial one. *)
Lemma parse_lines_no_heading lines :
  Forall (fun line => no_match SECTION_PATTERNS (lower (strip line))) lines ->
  parse_lines init_state lines = init_state.
Proof.
  induction 1 as [|l lines Hl _ IH]; simpl; [done|].
  replace (parse_line init_state l) with init_state; [done|].
  unfold parse_line. destruct (strip l) eqn:E; [done|].
  apply first_match_none in Hl. by rewrite Hl.
Qed.

Lemma strip_cons_nonspace c s :
  isspace c = false -> exists r, strip (String c s) = String c r.
Proof.
  intros H. unfold strip. simpl. rewrite H. simpl.
  destruct (rstrip s); rewrite ?H; eauto.
Qed.

Lemma strip_result s :
  strip s = EmptyString \/ exists c r, strip s = String c r /\ isspace c = false.
Proof.
  unfold strip. induction s as [|c s IH]; simpl; [by left|].
  destruct (isspace c) eqn:E; [done|]. right. simpl.
  destruct (rstrip s); rewrite ?E; eauto.
Qed.

Lemma section_text_nonempty x v t :
  x <> EmptyString -> (exists line, x = strip line) ->
  section_text (x :: v) = Some t -> t <> EmptyString.
Proof.
  intros Hx [line ->] [= <-].
  destruct (strip_result line) as [E|(c & r & E & Hc)]; [done|].
  rewrite E. destruct v as [|y v].
  - simpl. destruct (strip_cons_nonspace c r Hc) as [r' ->]. done.
  - change (String c r +:+ newline +:+ join newline (y :: v))
      with (String c (r +:+ newline +:+ join newline (y :: v))).
    destruct (strip_cons_nonspace c (r +:+ newline +:+ join newline (y :: v)) Hc)
      as [r' ->]. done.
Qed.

(** C6, as amended. One iteration of the loop of [parse] on a line: a
    line that is blank once trimmed changes nothing; a line whose
    trimmed, lower-cased text matches a pattern makes the first section
    that matches, in the declared order, the current one and is not
    stored; any other line is appended, trimmed, to the accumulator of the
    current section, or dropped when there is none. *)
Theorem parse_line_classifies (st : pstate) (line : string) :
  (strip line = EmptyString -> parse_line st line = st) /\
  (forall key, heading_line key line ->
     parse_line st line = PState (Some key) (sections st)) /\
  (content_line line ->
     parse_line st line =
       match current_section st with
       | Some cur =>
           PState (Some cur) (alter (fun v => v ++ [strip line]) cur (sections st))
       | None => st
       end).
Proof.
  split; [apply parse_line_blank|].
  split; [intros key; apply parse_line_heading | apply parse_line_content].
Qed.

Lemma parse_line_classifies_witness :
  parse_line skills_state "   " = skills_state /\
  parse_line skills_state "Education and Work Experience"
    = PState (Some "experience") (sections skills_state) /\
  parse_line skills_state "  Python, C++ "
    = PState (Some "skills")
        (alter (fun v => v ++ ["Python, C++"]) "skills" (sections skills_state)).
Proof.
  split; [apply (proj1 (parse_line_classifies skills_state "   ")); reflexivity|].
  split.
  - apply (proj1 (proj2 (parse_line_classifies skills_state
                           "Education and Work Experience"))).
    split; [discriminate|].
    exists [], ["experience"; "work history"; "employment"],
      (tail SECTION_PATTERNS).
    split; [reflexivity|]. split; [constructor | reflexivity].
  - apply (proj2 (proj2 (parse_line_classifies skills_state "  Python, C++ "))).
    unfold content_line.
    split; [discriminate|].
    apply first_match_none. reflexivity.
Defined.

(** C6, as it is worded: a blank line inside a section matches no
    pattern and yet is not stored. *)
Lemma blank_line_is_not_stored : ~ stores_every_unmatched_line.
Proof.
  intros H.
  specialize (H skills_state EmptyString "skills").
  assert (Hn : no_match SECTION_PATTERNS (lower (strip EmptyString)))
    by (apply first_match_none; reflexivity).
  specialize (H Hn eq_refl).
  apply (f_equal (fun m => m !! "skills")) in H.
  vm_compute in H. discriminate H.
Qed.

(** C7. A key of the mapping returned by [parse] stands for at least
    one content line of the document: its accumulator is not empty, each
    of its elements is the trimmed text of a line that is neither blank
    nor a heading, and its text is not the empty string. A document none
    of whose lines matches a pattern gives the empty mapping. *)
Theorem parse_keys_have_content (resume_text : string) :
  (forall key t, parse resume_text !! key = Some t ->
     t <> EmptyString /\
     exists x v,
       sections (parse_lines init_state (splitlines resume_text)) !! key
         = Some (x :: v) /\
       t = strip (join newline (x :: v)) /\
       forall y, In y (x :: v) ->
         exists line, In line (splitlines resume_text) /\
                      content_line line /\ y = strip line) /\
  (Forall (fun line => no_match SECTION_PATTERNS (lower (strip line)))
          (splitlines resume_text) ->
   parse resume_text = ∅).
Proof.
  split.
  - intros key t. unfold parse, finish. rewrite lookup_omap.
    destruct (sections _ !! key) as [acc|] eqn:E; simpl; [|done].
    destruct acc as [|x v]; [done|]. intros Ht.
    pose proof (stored_from_lines [] (splitlines resume_text) init_state
                  stored_from_init) as Hst.
    simpl in Hst.
    destruct (Hst key (x :: v) x E (or_introl eq_refl)) as (l0 & _ & [Hne _] & Hx).
    split.
    + apply (section_text_nonempty x v); [by subst x | by exists l0 | done].
    + exists x, v. split; [done|]. split; [by inversion Ht|].
      intros y Hy. exact (Hst key (x :: v) y E Hy).
  - intros Hno. unfold parse. by rewrite parse_lines_no_heading.
Qed.

Lemma parse_keys_have_content_witness :
  (exists t, parse ("EXPERIENCE" +:+ newline +:+ "Worked at Google") !! "experience"
             = Some t /\ t <> EmptyString) /\
  parse "Just some random text with no section headers at all." = ∅.
Proof.
  split.
  - exists "Worked at Google". split; [reflexivity|].
    apply (proj1 (parse_keys_have_content
             ("EXPERIENCE" +:+ newline +:+ "Worked at Google")) "experience").
    reflexivity.
  - apply (proj2 (parse_keys_have_content
             "Just some random text with no section headers at all.")).
    repeat constructor.
Defined.

(** A section whose heading comes twice. *)
Example parse_repeated_heading :
  parse ("SKILLS" +:+ newline +:+ "Python" +:+ newline +:+ "EDUCATION" +:+ newline
         +:+ "SIUE" +:+ newline +:+ "Technical Skills" +:+ newline +:+ " SQL")
  = {[ "skills" := "Python" +:+ newline +:+ "SQL"; "education" := "SIUE" ]}.
Proof. reflexivity. Qed.

(** The documents of the test suite. *)
Example parse_multi_line_section :
  parse ("EXPERIENCE" +:+ newline +:+ "Line one at job" +:+ newline
         +:+ "Line two at job")
  = {[ "experience" := "Line one at job" +:+ newline +:+ "Line two at job" ]}.
Proof. reflexivity. Qed.

Example parse_blank_line_in_section :
  parse ("SKILLS" +:+ newline +:+ "Python" +:+ newline +:+ newline +:+ "SQL")
  = {[ "skills" := "Python" +:+ newline +:+ "SQL" ]}.
Proof. reflexivity. Qed.

End ParserFacts.

(** ** Cosine similarity *)

Section CosineFacts.
Local Open Scope R_scope.

Lemma dot_comm u v : dot u v = dot v u.
Proof.
  revert v. induction u as [|x u IH]; intros [|y v]; simpl; try reflexivity.
  rewrite IH. lra.
Qed.

Lemma dot_self_nonneg a : 0 <= dot a a.
Proof. induction a as [|x a IH]; simpl; [lra | nra]. Qed.

Lemma dot_self_pos a : nonzero a -> 0 < dot a a.
Proof.
  induction 1 as [x a Hx | x a _ IH]; simpl.
  - pose proof (dot_self_nonneg a). nra.
  - nra.
Qed.

Lemma cosine_similarity_value a b :
  length a = length b ->
  cosine_similarity a b
  = inr (1 - (1 - dot a b / sqrt (dot a a * dot b b))).
Proof.
  intros H. unfold cosine_similarity, cosine.
  apply Nat.eqb_eq in H. by rewrite H.
Qed.

(** C8. For non-zero vectors of equal length the similarity is a number
    that does not depend on the order of the two arguments, and the
    similarity of a non-zero vector with itself is 1. *)
Theorem cosine_similarity_symmetric_identity :
  (forall a b : vec,
     length a = length b -> nonzero a -> nonzero b ->
     exists s, cosine_similarity a b = inr s /\ cosine_similarity b a = inr s) /\
  (forall a : vec, nonzero a -> cosine_similarity a a = inr 1).
Proof.
  split.
  - intros a b Hlen _ _. eexists. split.
    + by apply cosine_similarity_value.
    + rewrite cosine_similarity_value by done.
      by rewrite (dot_comm b a), (Rmult_comm (dot b b)).
  - intros a Ha. rewrite cosine_similarity_value by done.
    pose proof (dot_self_pos a Ha) as Hpos.
    rewrite sqrt_square by lra. f_equal. field. lra.
Qed.

Lemma cosine_similarity_symmetric_identity_witness :
  (exists s, cosine_similarity [1; 2] [3; -1] = inr s /\
             cosine_similarity [3; -1] [1; 2] = inr s) /\
  cosine_similarity [1; 2] [1; 2] = inr 1.
Proof.
  split.
  - apply (proj1 cosine_similarity_symmetric_identity [1; 2] [3; -1]).
    + reflexivity.
    + apply Exists_cons_hd. lra.
    + apply Exists_cons_hd. lra.
  - apply (proj2 cosine_similarity_symmetric_identity [1; 2]).
    apply Exists_cons_hd. lra.
Defined.

(** The vectors of the test suite. *)
Example similarity_orthogonal : cosine_similarity [1; 0] [0; 1] = inr 0.
Proof.
  rewrite cosine_similarity_value by reflexivity. simpl. f_equal.
  replace ((1 * 1 + (0 * 0 + 0)) * (0 * 0 + (1 * 1 + 0))) with 1 by lra.
  rewrite sqrt_1. lra.
Qed.

Example similarity_opposite : cosine_similarity [1; 0] [-1; 0] = inr (-1).
Proof.
  rewrite cosine_similarity_value by reflexivity. simpl. f_equal.
  replace ((1 * 1 + (0 * 0 + 0)) * (-1 * -1 + (0 * 0 + 0))) with 1 by lra.
  rewrite sqrt_1. lra.
Qed.

End CosineFacts.

(** ** The built-in sort on numeric keys *)

Section SortFacts.
Context {A : Type} (f : A -> R).

Let keyed (a : A) : value * A := (VFloat (f a), a).

Lemma Rltb_true x y : Rltb x y = true <-> (x < y)%R.
Proof. unfold Rltb. destruct (Rlt_dec x y); split; intros; done. Qed.

Lemma insert_keyed_float x s :
  exists r,
    insert_keyed (keyed x) (map keyed s) = inr (map keyed r) /\
    Permutation (x :: s) r /\
    (forall k : R, filter (fun a => f a = k) r = filter (fun a => f a = k) (x :: s)) /\
    (StronglySorted (fun a b => (f a <= f b)%R) s ->
     StronglySorted (fun a b => (f a <= f b)%R) r).
Proof.
  induction s as [|y s (r & Hr & Hperm & Hfil & Hsort)]; simpl.
  - exists [x]. repeat split; try done. intros _. repeat constructor.
  - destruct (Rltb (f y) (f x)) eqn:E.
    + exists (y :: r). rewrite Hr. split; [done|]. split.
      { rewrite <- Hperm. apply perm_swap. }
      split.
      * intros k. apply Rltb_true in E. rewrite !filter_cons, Hfil, filter_cons.
        repeat case_decide; try done. lra.
      * intros Hs. inversion Hs as [|? ? Hs' Hall]; subst.
        constructor; [by apply Hsort|].
        rewrite <- Hperm. constructor; [|done].
        apply Rltb_true in E. lra.
    + exists (x :: y :: s). repeat split; try done.
      intros Hs. inversion Hs as [|? ? Hs' Hall]; subst.
      assert (Hxy : (f x <= f y)%R).
      { destruct (Rle_dec (f x) (f y)) as [|n]; [done|].
        assert (Rltb (f y) (f x) = true) by (apply Rltb_true; lra). congruence. }
      constructor; [done|]. constructor; [done|].
      eapply Forall_impl; [exact Hall|]. simpl. intros; lra.
Qed.

Lemma sort_keyed_float l :
  exists r,
    sort_keyed (map keyed l) = inr (map keyed r) /\
    Permutation l r /\
    (forall k : R, filter (fun a => f a = k) r = filter (fun a => f a = k) l) /\
    StronglySorted (fun a b => (f a <= f b)%R) r.
Proof.
  induction l as [|x l (s & Hs & Hperm & Hfil & Hsort)]; simpl.
  - exists []. repeat split; try done. constructor.
  - rewrite Hs. destruct (insert_keyed_float x s) as (r & Hr & Hp & Hf & Hso).
    exists r. split; [done|]. split; [by rewrite <- Hp, Hperm|].
    split; [|by apply Hso].
    intros k. rewrite Hf, !filter_cons, Hfil. done.
Qed.

Lemma StronglySorted_reverse (rel : A -> A -> Prop) l :
  StronglySorted rel l -> StronglySorted (fun a b => rel b a) (reverse l).
Proof.
  induction 1 as [|x l Hs IH Hall]; [constructor|].
  rewrite reverse_cons. apply StronglySorted_app_2; [|done|repeat constructor].
  intros a b Ha Hb. apply list_elem_of_singleton in Hb. subst b.
  rewrite elem_of_reverse in Ha. rewrite Forall_forall in Hall. by apply Hall.
Qed.

(** With numeric keys the sort of [sorted(..., reverse=True)] does not
    raise, and its result is the stable sort by decreasing key. *)
Lemma sort_keyed_reverse_float l :
  exists r,
    sort_keyed_reverse (map keyed l) = inr (map keyed r) /\
    stable_sorted_desc f l r.
Proof.
  unfold sort_keyed_reverse.
  change (map keyed l) with (keyed <$> l). rewrite <- fmap_reverse.
  destruct (sort_keyed_float (reverse l)) as (s & Hs & Hperm & Hfil & Hsort).
  change (keyed <$> reverse l) with (map keyed (reverse l)). rewrite Hs.
  exists (reverse s). split.
  { change (map keyed s) with (keyed <$> s). by rewrite <- fmap_reverse. }
  split; [|split].
  - by rewrite reverse_Permutation, <- Hperm, reverse_Permutation.
  - by apply StronglySorted_reverse in Hsort.
  - intros k. by rewrite filter_reverse, Hfil, filter_reverse, reverse_involutive.
Qed.

(** The specification determines the result. *)
Lemma stable_sorted_desc_unique l r1 r2 :
  stable_sorted_desc f l r1 -> stable_sorted_desc f l r2 -> r1 = r2.
Proof.
  intros (Hp1 & Hs1 & Hf1) (Hp2 & Hs2 & Hf2).
  assert (Hf : forall k : R, filter (fun a => f a = k) r1 = filter (fun a => f a = k) r2)
    by (intros k; by rewrite Hf1, Hf2).
  clear Hp1 Hp2 Hf1 Hf2 l.
  revert r2 Hs2 Hf. induction Hs1 as [|x r1 Hs1 IH Hall1]; intros r2 Hs2 Hf.
  - destruct r2 as [|y r2]; [done|].
    specialize (Hf (f y)). rewrite filter_cons_True in Hf by done. done.
  - destruct r2 as [|y r2].
    { specialize (Hf (f x)). rewrite filter_cons_True in Hf by done. done. }
    inversion Hs2 as [|? ? Hs2' Hall2]; subst.
    assert (Hxy : f x = f y).
    { apply Rle_antisym.
      - pose proof (Hf (f x)) as H. rewrite filter_cons_True in H by done.
        assert (Hin : x ∈ filter (fun a => f a = f x) (y :: r2))
          by (rewrite <- H; left).
        apply list_elem_of_filter in Hin. destruct Hin as [_ Hin].
        apply elem_of_cons in Hin. destruct Hin as [->|Hin]; [lra|].
        rewrite Forall_forall in Hall2. by apply Hall2.
      - pose proof (Hf (f y)) as H. rewrite (filter_cons_True _ y) in H by done.
        assert (Hin : y ∈ filter (fun a => f a = f y) (x :: r1))
          by (rewrite H; left).
        apply list_elem_of_filter in Hin. destruct Hin as [_ Hin].
        apply elem_of_cons in Hin. destruct Hin as [->|Hin]; [lra|].
        rewrite Forall_forall in Hall1. by apply Hall1. }
    pose proof (Hf (f x)) as H.
    rewrite filter_cons_True in H by done.
    rewrite (filter_cons_True _ y) in H by done.
    inversion H; subst y. f_equal. apply IH; [done|].
    intros k. specialize (Hf k). rewrite !filter_cons in Hf.
    case_decide; [by inversion Hf | done].
Qed.

End SortFacts.

(** ** The ranker *)

Section RankerFacts.
Context (float_repr : R -> string) (default_model : SentenceTransformer).


(** *** Building the texts *)

Lemma job_text_present w job t c d :
  deref w job !! "title" = Some t ->
  deref w job !! "company" = Some c ->
  deref w job !! "description" = Some d ->
  job_text float_repr job w
  = (inr (format_value float_repr t +:+ " " +:+ format_value float_repr c
          +:+ " " +:+ format_value float_repr d), w).
Proof.
  intros Ht Hc Hd. unfold job_text, bind, getitem.
  by rewrite Ht, Hc, Hd.
Qed.

Lemma job_text_missing w job :
  ~ has_text_fields w job ->
  exists key,
    key ∈ ["title"; "company"; "description"] /\
    deref w job !! key = None /\
    job_text float_repr job w = (inl (KeyError key), w).
Proof.
  intros Hno. unfold job_text, bind, getitem.
  destruct (deref w job !! "title") as [t|] eqn:Ht; cycle 1.
  { exists "title". split; [repeat constructor | done]. }
  destruct (deref w job !! "company") as [c|] eqn:Hc; cycle 1.
  { exists "company". split; [repeat constructor | done]. }
  destruct (deref w job !! "description") as [d|] eqn:Hd; cycle 1.
  { exists "description". split; [repeat constructor | done]. }
  exfalso. apply Hno. unfold has_text_fields. rewrite Ht, Hc, Hd. eauto.
Qed.

Lemma has_text_fields_dec w job : has_text_fields w job \/ ~ has_text_fields w job.
Proof.
  unfold has_text_fields.
  destruct (deref w job !! "title"), (deref w job !! "company"),
    (deref w job !! "description"); first [left; by eauto | right];
    intros (H1 & H2 & H3); by (destruct H1 || destruct H2 || destruct H3).
Qed.

Lemma job_text_ok w job :
  has_text_fields w job ->
  job_text float_repr job w = (inr (text_of float_repr w job), w).
Proof.
  intros ([t Ht] & [c Hc] & [d Hd]). unfold text_of.
  by rewrite (job_text_present w job t c d).
Qed.

Lemma map_m_job_text_ok w jobs :
  Forall (has_text_fields w) jobs ->
  map_m (job_text float_repr) jobs w = (inr (map (text_of float_repr w) jobs), w).
Proof.
  induction 1 as [|job jobs Hj _ IH]; [done|].
  simpl. unfold bind. rewrite (job_text_ok w job Hj), IH. done.
Qed.

Lemma map_m_job_text_missing w jobs :
  Exists (fun job => ~ has_text_fields w job) jobs ->
  exists key,
    key ∈ ["title"; "company"; "description"] /\
    map_m (job_text float_repr) jobs w = (inl (KeyError key), w).
Proof.
  induction jobs as [|job jobs IH]; intros Hex; [by inversion Hex|].
  simpl. unfold bind.
  destruct (has_text_fields_dec w job) as [Hj|Hj].
  - rewrite (job_text_ok w job Hj).
    inversion Hex as [? ? Hbad|? ? Hrest]; subst; [done|].
    destruct (IH Hrest) as (key & Hkey & ->). eauto.
  - destruct (job_text_missing w job Hj) as (key & Hkey & _ & ->). eauto.
Qed.

(** *** The scoring loop *)

Lemma cosine_similarity_defined resume e :
  length e = length resume -> exists x, cosine_similarity resume e = inr x.
Proof.
  intros H. rewrite cosine_similarity_value by done. eauto.
Qed.

(** After the loop each location paired with a vector holds its old
    record with the score of the last of its pairs; the other locations
    and the rest of the world are as before. *)
Lemma score_loop resume pairs w :
  Forall (fun p => length (snd p) = length resume) pairs ->
  exists h',
    for_each (score_job resume) pairs w
      = (inr tt, World h' (files w) (stdout w) (batch_calls w)) /\
    (forall l, l ∉ pairs.*1 -> h' !! l = heap w !! l) /\
    (forall l, l ∈ pairs.*1 ->
       exists x e, (l, e) ∈ pairs /\ cosine_similarity resume e = inr x /\
         h' !! l = Some (<["similarity_score" := VFloat x]> (deref w l))).
Proof.
  revert w. induction pairs as [|[l0 e0] pairs IH]; intros w Hdim.
  - exists (heap w). split; [by destruct w|]. split; [done|].
    intros l Hl. by apply elem_of_nil in Hl.
  - inversion Hdim as [|? ? Hd0 Hdim']; subst. simpl in Hd0.
    destruct (cosine_similarity_defined resume e0 Hd0) as [x0 Hx0].
    simpl. unfold bind at 1. unfold score_job, bind, lift. simpl.
    rewrite Hx0. simpl. unfold setitem.
    set (w1 := World _ _ _ _).
    destruct (IH w1 Hdim') as (h' & Hrun & Hout & Hin).
    exists h'. split; [exact Hrun|]. split.
    + intros l Hl. change (l ∉ l0 :: pairs.*1) in Hl.
      apply not_elem_of_cons in Hl as [Hne Hl].
      rewrite Hout by done. subst w1. simpl. by rewrite lookup_insert_ne.
    + intros l Hl. change (l ∈ l0 :: pairs.*1) in Hl.
      destruct (decide (l ∈ pairs.*1)) as [Hlp|Hlp].
      * destruct (Hin l Hlp) as (x & e & Hle & Hx & Hh).
        exists x, e. split; [rewrite elem_of_cons; by right|]. split; [done|].
        rewrite Hh. f_equal. unfold deref at 1. subst w1. simpl.
        destruct (decide (l = l0)) as [->|Hne].
        -- rewrite lookup_insert_eq. simpl. by rewrite insert_insert_eq.
        -- by rewrite lookup_insert_ne.
      * apply elem_of_cons in Hl as [->|Hl]; [|done].
        exists x0, e0. split; [rewrite elem_of_cons; by left|]. split; [done|].
        rewrite Hout by done. subst w1. simpl. by rewrite lookup_insert_eq.
Qed.

(** *** Reading the keys and sorting *)

Lemma score_of_lookup w l x :
  deref w l !! "similarity_score" = Some (VFloat x) -> score_of (heap w) l = x.
Proof. unfold score_of, deref. by intros ->. Qed.

Lemma map_m_score_ok w jobs :
  (forall l, l ∈ jobs ->
     exists x, deref w l !! "similarity_score" = Some (VFloat x)) ->
  map_m (fun job => getitem job "similarity_score") jobs w
  = (inr (map (fun l => VFloat (score_of (heap w) l)) jobs), w).
Proof.
  induction jobs as [|job jobs IH]; intros H; [done|].
  simpl. unfold bind. destruct (H job) as [x Hx]; [by left|].
  unfold getitem at 1. rewrite Hx. rewrite IH by (intros; apply H; by right).
  by rewrite (score_of_lookup w job x Hx).
Qed.

Lemma map_m_score_missing w jobs :
  Exists (fun l => deref w l !! "similarity_score" = None) jobs ->
  map_m (fun job => getitem job "similarity_score") jobs w
  = (inl (KeyError "similarity_score"), w).
Proof.
  induction jobs as [|job jobs IH]; intros Hex; [by inversion Hex|].
  simpl. unfold bind. unfold getitem at 1.
  destruct (deref w job !! "similarity_score") eqn:E; [|done].
  inversion Hex; subst; [congruence|]. by rewrite IH.
Qed.

Lemma zip_keys (g : loc -> value) (jobs : list loc) :
  zip (map g jobs) jobs = map (fun l => (g l, l)) jobs.
Proof. induction jobs; simpl; congruence. Qed.

Lemma sorted_by_score_ok w jobs :
  (forall l, l ∈ jobs ->
     exists x, deref w l !! "similarity_score" = Some (VFloat x)) ->
  exists ranked,
    sorted_by_score jobs w = (inr ranked, w) /\
    stable_sorted_desc (score_of (heap w)) jobs ranked.
Proof.
  intros H. unfold sorted_by_score, bind. rewrite map_m_score_ok by done.
  rewrite (zip_keys (fun l => VFloat (score_of (heap w) l))).
  destruct (sort_keyed_reverse_float (score_of (heap w)) jobs) as (r & Hr & Hspec).
  rewrite Hr. simpl. exists r. split; [|done].
  unfold ret. f_equal. f_equal. rewrite map_map. simpl. apply map_id.
Qed.

Lemma sorted_by_score_missing w jobs :
  Exists (fun l => deref w l !! "similarity_score" = None) jobs ->
  sorted_by_score jobs w = (inl (KeyError "similarity_score"), w).
Proof.
  intros H. unfold sorted_by_score, bind. by rewrite map_m_score_missing.
Qed.

(** *** The whole call *)

Lemma Forall_zip_snd {X Y} (P : Y -> Prop) (l : list X) (k : list Y) :
  Forall P k -> Forall (fun p => P (snd p)) (zip l k).
Proof.
  intros Hk. revert l. induction Hk as [|y k Hy _ IH]; intros [|x l]; simpl;
    constructor; auto.
Qed.

Lemma rank_jobs_body resume jobs top_n svc csv :
  jobs <> [] ->
  rank_jobs float_repr default_model resume jobs top_n (Some svc) csv
  = (job_texts <- map_m (job_text float_repr) jobs ;;
     job_embeddings <- call_batch svc job_texts ;;
     for_each (score_job resume) (zip jobs job_embeddings) ;;;
     ranked_jobs <- sorted_by_score jobs ;;
     save_jobs (slice_to ranked_jobs top_n) csv ;;;
     ret (slice_to ranked_jobs top_n))%py.
Proof. by destruct jobs. Qed.

(** The call up to the end of the scoring loop. *)
Lemma rank_jobs_scored resume jobs top_n svc csv w :
  jobs <> [] ->
  Forall (has_text_fields w) jobs ->
  Forall (fun e => length e = length resume) (batch_result float_repr svc w jobs) ->
  exists h',
    (forall l, l ∉ (zip jobs (batch_result float_repr svc w jobs)).*1 ->
       h' !! l = heap w !! l) /\
    (forall l, l ∈ (zip jobs (batch_result float_repr svc w jobs)).*1 ->
       exists x e, (l, e) ∈ zip jobs (batch_result float_repr svc w jobs) /\
         cosine_similarity resume e = inr x /\
         h' !! l = Some (<["similarity_score" := VFloat x]> (deref w l))) /\
    rank_jobs float_repr default_model resume jobs top_n (Some svc) csv w
    = (ranked_jobs <- sorted_by_score jobs ;;
       save_jobs (slice_to ranked_jobs top_n) csv ;;;
       ret (slice_to ranked_jobs top_n))%py
        (World h' (files w) (stdout w)
           (batch_calls w ++ [map (text_of float_repr w) jobs])).
Proof.
  intros Hne Hfields Hdim.
  pose (w1 := World (heap w) (files w) (stdout w)
                (batch_calls w ++ [map (text_of float_repr w) jobs])).
  destruct (score_loop resume (zip jobs (batch_result float_repr svc w jobs)) w1
              (Forall_zip_snd _ _ _ Hdim)) as (h' & Hrun & Hout & Hin).
  exists h'. split; [exact Hout|]. split; [exact Hin|].
  rewrite rank_jobs_body by done. unfold bind at 1.
  rewrite map_m_job_text_ok by done.
  unfold bind at 1. unfold call_batch. unfold bind at 1.
  fold w1. unfold batch_result in Hrun. rewrite Hrun. done.
Qed.

(** The service matters only through the vectors paired with records. *)
Lemma rank_jobs_zip_only resume jobs top_n svc svc' csv w :
  jobs <> [] ->
  Forall (has_text_fields w) jobs ->
  zip jobs (batch_result float_repr svc' w jobs)
  = zip jobs (batch_result float_repr svc w jobs) ->
  rank_jobs float_repr default_model resume jobs top_n (Some svc') csv w
  = rank_jobs float_repr default_model resume jobs top_n (Some svc) csv w.
Proof.
  intros Hne Hfields Hzip. rewrite !rank_jobs_body by done.
  unfold bind, call_batch. rewrite map_m_job_text_ok by done.
  unfold batch_result in Hzip. by rewrite Hzip.
Qed.

(** A call whose records have their fields and whose service answers
    with enough vectors of the right dimension returns normally. *)
Lemma rank_jobs_ok resume jobs top_n svc csv w :
  jobs <> [] ->
  Forall (has_text_fields w) jobs ->
  Forall (fun e => length e = length resume) (batch_result float_repr svc w jobs) ->
  length jobs <= length (batch_result float_repr svc w jobs) ->
  exists h' ranked msg,
    rank_jobs float_repr default_model resume jobs top_n (Some svc) csv w
    = (inr (slice_to ranked top_n),
       World h'
         (match slice_to ranked top_n with
          | [] => files w
          | _ => <[csv := rows_of h' (slice_to ranked top_n)]> (files w)
          end)
         (stdout w ++ [msg])
         (batch_calls w ++ [map (text_of float_repr w) jobs])) /\
    stable_sorted_desc (score_of h') jobs ranked /\
    (forall l, l ∉ jobs -> h' !! l = heap w !! l) /\
    (forall l, l ∈ jobs ->
       exists x e, (l, e) ∈ zip jobs (batch_result float_repr svc w jobs) /\
         cosine_similarity resume e = inr x /\
         h' !! l = Some (<["similarity_score" := VFloat x]> (deref w l))).
Proof.
  intros Hne Hfields Hdim Hlen.
  destruct (rank_jobs_scored resume jobs top_n svc csv w Hne Hfields Hdim)
    as (h' & Hout & Hin & Hrun).
  rewrite fst_zip in Hout, Hin by done.
  set (w2 := World h' (files w) (stdout w)
               (batch_calls w ++ [map (text_of float_repr w) jobs])) in *.
  destruct (sorted_by_score_ok w2 jobs) as (ranked & Hsort & Hspec).
  { intros l Hl. destruct (Hin l Hl) as (x & e & _ & _ & Hh).
    exists x. unfold deref, w2. simpl. rewrite Hh. simpl.
    by rewrite lookup_insert_eq. }
  rewrite Hrun. unfold bind at 1. rewrite Hsort. unfold bind, save_jobs.
  destruct (slice_to ranked top_n) as [|r0 res] eqn:Hres.
  - exists h', ranked, ("No jobs to save to " +:+ csv +:+ ".").
    rewrite Hres. split; [reflexivity|]. split; [exact Hspec|]. by split.
  - exists h', ranked,
      ("Saved " +:+ pretty (length (r0 :: res)) +:+ " jobs to " +:+ csv).
    rewrite Hres. split; [reflexivity|]. split; [exact Hspec|]. by split.
Qed.

Lemma slice_to_nat {X} (l : list X) (n : nat) :
  slice_to l (Z.of_nat n) = take (Nat.min n (length l)) l.
Proof.
  unfold slice_to. rewrite (proj2 (Z.leb_le 0 (Z.of_nat n))) by lia.
  rewrite Nat2Z.id.
  destruct (Nat.le_ge_cases n (length l)).
  - by rewrite Nat.min_l.
  - rewrite Nat.min_r by done. by rewrite !take_ge.
Qed.

Lemma slice_to_subseteq {X} (l : list X) (n : Z) x :
  x ∈ slice_to l n -> x ∈ l.
Proof.
  unfold slice_to. destruct (0 <=? n)%Z; intros H; by eapply subseteq_take.
Qed.

(** C1, as amended. [rank_jobs] does not compare the number of vectors
    it gets with the number of records. When the service answers with
    more vectors than records, the call returns normally, and exactly as
    if the answer had been cut to the number of records. When it answers
    with fewer, the records past the answer are not scored, and the call
    raises [KeyError('similarity_score')] in the sort, with no file
    written, as soon as one of them carries no score of its own. *)
Theorem rank_jobs_length_mismatch resume jobs top_n svc csv w :
  jobs <> [] ->
  Forall (has_text_fields w) jobs ->
  Forall (fun e => length e = length resume) (batch_result float_repr svc w jobs) ->
  (length jobs < length (batch_result float_repr svc w jobs) ->
   exists res w',
     rank_jobs float_repr default_model resume jobs top_n (Some svc) csv w
     = (inr res, w') /\
     rank_jobs float_repr default_model resume jobs top_n
       (Some (fixed_service
                (take (length jobs) (batch_result float_repr svc w jobs))))
       csv w
     = (inr res, w')) /\
  (forall l,
     l ∈ drop (length (batch_result float_repr svc w jobs)) jobs ->
     l ∉ take (length (batch_result float_repr svc w jobs)) jobs ->
     deref w l !! "similarity_score" = None ->
     exists w',
       rank_jobs float_repr default_model resume jobs top_n (Some svc) csv w
       = (inl (KeyError "similarity_score"), w') /\
       files w' = files w).
Proof.
  intros Hne Hfields Hdim. split.
  - intros Hlen.
    destruct (rank_jobs_ok resume jobs top_n svc csv w)
      as (h' & ranked & msg & Hrun & _);
      [done | done | done | lia |].
    eexists _, _. split; [exact Hrun|]. rewrite <- Hrun.
    apply rank_jobs_zip_only; [done | done |].
    unfold batch_result. simpl. apply zip_with_take_r.
  - intros l Hdrop Htake Hnone.
    destruct (rank_jobs_scored resume jobs top_n svc csv w Hne Hfields Hdim)
      as (h' & Hout & _ & Hrun).
    eexists. rewrite Hrun. unfold bind at 1.
    rewrite sorted_by_score_missing; [done|].
    apply Exists_exists. exists l. split.
    + by eapply subseteq_drop.
    + unfold deref. simpl. rewrite Hout; [done|].
      intros Hl. apply Htake.
      assert (Hz : (zip jobs (batch_result float_repr svc w jobs)).*1
                   = take (length (batch_result float_repr svc w jobs)) jobs).
      { clear. generalize (batch_result float_repr svc w jobs). intros k. revert k.
        induction jobs as [|j jobs IH]; intros [|e k]; simpl; try done.
        by rewrite <- IH. }
      by rewrite <- Hz.
Qed.

(** C2, as amended. The text of a record that has its three fields is
    the title, the company and the description, in this order, with one
    space between them. A record that lacks one of them is not given an
    empty text: [rank_jobs] raises [KeyError] on it, before the service is
    called and without changing anything. *)
Theorem job_text_fields :
  (forall w job t c d,
     deref w job !! "title" = Some t ->
     deref w job !! "company" = Some c ->
     deref w job !! "description" = Some d ->
     job_text float_repr job w
     = (inr (format_value float_repr t +:+ " " +:+ format_value float_repr c
             +:+ " " +:+ format_value float_repr d), w)) /\
  (forall resume jobs top_n svc csv w,
     Exists (fun job => ~ has_text_fields w job) jobs ->
     exists key,
       key ∈ ["title"; "company"; "description"] /\
       rank_jobs float_repr default_model resume jobs top_n svc csv w
       = (inl (KeyError key), w)).
Proof.
  split; [apply job_text_present|].
  intros resume jobs top_n svc csv w Hex.
  destruct (map_m_job_text_missing w jobs Hex) as (key & Hkey & Hrun).
  exists key. split; [done|].
  destruct jobs as [|j jobs]; [by inversion Hex|].
  unfold rank_jobs. unfold bind at 1. by rewrite Hrun.
Qed.


(** C4. On the empty list the call returns the empty list at once: it
    prints its warning and nothing else happens; no batch is sent to a
    service, no record and no file is touched, nothing is raised. *)
Theorem rank_jobs_empty resume top_n svc csv w :
  rank_jobs float_repr default_model resume [] top_n svc csv w
  = (inr [], World (heap w) (files w) (stdout w ++ ["No jobs to rank."])
                   (batch_calls w)).
Proof. reflexivity. Qed.

(** C5, as amended. [rank_jobs] does the saving itself: when it has
    scored and sorted a list that is not empty, it hands the truncated
    result to [save_jobs], so that on return the file [output_csv] holds
    the returned records, with their scores and in rank order; only a
    truncated result that is empty leaves the files as they were. *)
Theorem rank_jobs_saves_result resume jobs top_n svc csv w :
  jobs <> [] ->
  Forall (has_text_fields w) jobs ->
  Forall (fun e => length e = length resume) (batch_result float_repr svc w jobs) ->
  length (batch_result float_repr svc w jobs) = length jobs ->
  exists res w',
    rank_jobs float_repr default_model resume jobs top_n (Some svc) csv w
    = (inr res, w') /\
    files w' = match res with
               | [] => files w
               | _ => <[csv := rows_of (heap w') res]> (files w)
               end.
Proof.
  intros Hne Hfields Hdim Hlen.
  destruct (rank_jobs_ok resume jobs top_n svc csv w)
    as (h' & ranked & msg & Hrun & _); [done | done | done | lia |].
  eexists _, _. split; [exact Hrun|]. done.
Qed.

(** C9. The call writes into the records it is given: afterwards every
    record of the input list, returned or not, is its former self with a
    [similarity_score] added, the score being the similarity of the
    reference with a vector paired with that record; the records returned
    are records of the input list, no record is created, and the records
    outside the list are unchanged. *)
Theorem rank_jobs_scores_in_place resume jobs top_n svc csv w :
  jobs <> [] ->
  Forall (has_text_fields w) jobs ->
  Forall (fun e => length e = length resume) (batch_result float_repr svc w jobs) ->
  length (batch_result float_repr svc w jobs) = length jobs ->
  exists res w',
    rank_jobs float_repr default_model resume jobs top_n (Some svc) csv w
    = (inr res, w') /\
    (forall l, l ∈ jobs ->
       exists x e,
         (l, e) ∈ zip jobs (batch_result float_repr svc w jobs) /\
         cosine_similarity resume e = inr x /\
         heap w' !! l = Some (<["similarity_score" := VFloat x]> (deref w l))) /\
    (forall l, l ∈ res -> l ∈ jobs) /\
    (forall l, l ∉ jobs -> heap w' !! l = heap w !! l) /\
    dom (heap w') = dom (heap w).
Proof.
  intros Hne Hfields Hdim Hlen.
  destruct (rank_jobs_ok resume jobs top_n svc csv w)
    as (h' & ranked & msg & Hrun & (Hperm & _) & Hout & Hin);
    [done | done | done | lia |].
  eexists _, _. split; [exact Hrun|]. simpl.
  split; [exact Hin|]. split; [|split; [exact Hout|]].
  - intros l Hl. apply slice_to_subseteq in Hl. by rewrite Hperm.
  - apply set_eq. intros l. rewrite !elem_of_dom.
    destruct (decide (l ∈ jobs)) as [Hl|Hl]; [|by rewrite Hout].
    destruct (Hin l Hl) as (x & e & _ & _ & ->).
    rewrite Forall_forall in Hfields.
    destruct (Hfields l Hl) as ([t Ht] & _). unfold deref in Ht.
    destruct (heap w !! l); [by split; eauto|].
    simpl in Ht. by rewrite lookup_empty in Ht.
Qed.

End RankerFacts.

(** ** The ranker on the sample data *)

Section RankerSamples.
Local Open Scope R_scope.


Local Ltac fields :=
  repeat first [ apply Forall_cons; split | apply Forall_nil ];
  repeat split; eexists; vm_compute; reflexivity.

Local Ltac dims :=
  repeat first [ apply Forall_cons; split | apply Forall_nil ]; reflexivity.

Lemma job_without_company_fields : ~ has_text_fields sample_world 3%positive.
Proof. intros (_ & [c Hc] & _). vm_compute in Hc. discriminate Hc. Qed.

(** C1, as it is worded: a service that answers with two vectors for
    one record makes nothing fail. *)
Lemma surplus_vectors_raise_nothing :
  ~ length_mismatch_raises sample_float_repr sample_model.
Proof.
  intros H.
  destruct (H [1; 0; 0] [1%positive] 50%Z
              (fixed_service [[1; 0; 0]; [0; 1; 0]]) "ranked_jobs.csv"
              sample_world) as [e He].
  - discriminate.
  - fields.
  - simpl. lia.
  - vm_compute in He. discriminate He.
Qed.

(** An answer that is too short goes unnoticed as well when the record
    left unscored has a score from an earlier call: the old score is used. *)
Example stale_score_hides_short_answer :
  fst (rank_jobs sample_float_repr sample_model [1; 0; 0] [4%positive] 50%Z
         (Some (fixed_service [])) "ranked_jobs.csv" sample_world)
  = inr [4%positive].
Proof. vm_compute. reflexivity. Qed.

Lemma rank_jobs_length_mismatch_witness :
  (exists res w',
     rank_jobs sample_float_repr sample_model [1; 0; 0] [1%positive] 50%Z
       (Some (fixed_service [[1; 0; 0]; [0; 1; 0]])) "ranked_jobs.csv" sample_world
     = (inr res, w') /\
     rank_jobs sample_float_repr sample_model [1; 0; 0] [1%positive] 50%Z
       (Some (fixed_service
          (take (length [1%positive])
             (batch_result sample_float_repr
                (fixed_service [[1; 0; 0]; [0; 1; 0]]) sample_world [1%positive]))))
       "ranked_jobs.csv" sample_world
     = (inr res, w')) /\
  (exists w',
     rank_jobs sample_float_repr sample_model [1; 0; 0] [1%positive; 2%positive] 50%Z
       (Some (fixed_service [[1; 0; 0]])) "ranked_jobs.csv" sample_world
     = (inl (KeyError "similarity_score"), w') /\
     files w' = files sample_world).
Proof.
  split.
  - apply (proj1 (rank_jobs_length_mismatch sample_float_repr sample_model
             [1; 0; 0] [1%positive] 50%Z
             (fixed_service [[1; 0; 0]; [0; 1; 0]]) "ranked_jobs.csv" sample_world
             ltac:(discriminate) ltac:(fields) ltac:(dims))).
    simpl. lia.
  - apply (proj2 (rank_jobs_length_mismatch sample_float_repr sample_model
             [1; 0; 0] [1%positive; 2%positive] 50%Z
             (fixed_service [[1; 0; 0]]) "ranked_jobs.csv" sample_world
             ltac:(discriminate) ltac:(fields) ltac:(dims)) 2%positive).
    + simpl. by left.
    + simpl. intros H. apply list_elem_of_singleton in H. discriminate H.
    + vm_compute. reflexivity.
Defined.

(** C2, as it is worded: the record without company gets no text. *)
Lemma missing_company_raises :
  ~ missing_fields_read_as_empty sample_float_repr.
Proof.
  intros H. specialize (H sample_world 3%positive).
  apply (f_equal fst) in H. vm_compute in H. discriminate H.
Qed.

Lemma job_text_fields_witness :
  job_text sample_float_repr 1%positive sample_world
    = (inr "Job1 A desc1", sample_world) /\
  exists key,
    key ∈ ["title"; "company"; "description"] /\
    rank_jobs sample_float_repr sample_model [1; 0; 0]
      [1%positive; 3%positive] 50%Z (Some MockEmbeddingService)
      "ranked_jobs.csv" sample_world
    = (inl (KeyError key), sample_world).
Proof.
  split.
  - apply (proj1 (job_text_fields sample_float_repr sample_model)
             sample_world 1%positive (VStr "Job1") (VStr "A") (VStr "desc1"));
      vm_compute; reflexivity.
  - apply (proj2 (job_text_fields sample_float_repr sample_model)).
    apply Exists_cons_tl, Exists_cons_hd. exact job_without_company_fields.
Defined.



(** C5, as it is worded: after a call on one record the file is there. *)
Lemma ranking_writes_a_file :
  ~ ranking_writes_no_file sample_float_repr sample_model.
Proof.
  intros H.
  specialize (H [1; 0; 0] [1%positive] 50%Z (Some MockEmbeddingService)
                "ranked_jobs.csv" sample_world).
  apply (f_equal (fun m => bool_decide (is_Some (m !! "ranked_jobs.csv")))) in H.
  vm_compute in H. discriminate H.
Qed.

Lemma rank_jobs_saves_result_witness :
  exists res w',
    rank_jobs sample_float_repr sample_model [1; 0; 0] [1%positive; 2%positive] 2%Z
      (Some MockEmbeddingService) "test_ranked_jobs.csv" sample_world
    = (inr res, w') /\
    files w' = match res with
               | [] => files sample_world
               | _ => <["test_ranked_jobs.csv" := rows_of (heap w') res]>
                        (files sample_world)
               end.
Proof.
  apply (rank_jobs_saves_result sample_float_repr sample_model
           [1; 0; 0] [1%positive; 2%positive] 2%Z MockEmbeddingService
           "test_ranked_jobs.csv" sample_world).
  - discriminate.
  - fields.
  - dims.
  - reflexivity.
Defined.

Lemma rank_jobs_scores_in_place_witness :
  exists res w',
    rank_jobs sample_float_repr sample_model [1; 0; 0] [1%positive; 2%positive] 1%Z
      (Some MockEmbeddingService) "test_ranked_jobs.csv" sample_world
    = (inr res, w') /\
    (forall l, l ∈ [1%positive; 2%positive] ->
       exists x e,
         (l, e) ∈ zip [1%positive; 2%positive]
                    (batch_result sample_float_repr MockEmbeddingService
                       sample_world [1%positive; 2%positive]) /\
         cosine_similarity [1; 0; 0] e = inr x /\
         heap w' !! l
         = Some (<["similarity_score" := VFloat x]> (deref sample_world l))) /\
    (forall l, l ∈ res -> l ∈ [1%positive; 2%positive]) /\
    (forall l, l ∉ [1%positive; 2%positive] ->
       heap w' !! l = heap sample_world !! l) /\
    dom (heap w') = dom (heap sample_world).
Proof.
  apply (rank_jobs_scores_in_place sample_float_repr sample_model
           [1; 0; 0] [1%positive; 2%positive] 1%Z MockEmbeddingService
           "test_ranked_jobs.csv" sample_world).
  - discriminate.
  - fields.
  - dims.
  - reflexivity.
Defined.

(** A negative [top_n] counts from the end of the list. *)
Example slice_to_negative : slice_to [1; 2; 3]%nat (-1) = [1; 2]%nat.
Proof. reflexivity. Qed.

End RankerSamples.

(** * Further properties *)

(** ** Trimming *)

Section StripFacts.
Import PyStr.

Lemma rstrip_idempotent s : rstrip (rstrip s) = rstrip s.
Proof.
  induction s as [|c s IH]; [done|]. simpl.
  destruct (rstrip s) as [|d r] eqn:E.
  - destruct (isspace c) eqn:Hc; simpl; [done|]. by rewrite Hc.
  - simpl in IH. simpl. destruct (rstrip r) as [|d' r'] eqn:E'.
    + destruct (isspace d); [done|]. by rewrite IH.
    + by rewrite IH.
Qed.

Lemma lstrip_fixed s :
  s = EmptyString \/ (exists c r, s = String c r /\ isspace c = false) -> lstrip s = s.
Proof. intros [->|(c & r & -> & Hc)]; simpl; [done|]. by rewrite Hc. Qed.

(** [strip] applied twice is [strip]. *)
Lemma strip_idempotent s : strip (strip s) = strip s.
Proof.
  unfold strip at 1. rewrite (lstrip_fixed (strip s)) by apply strip_result.
  unfold strip. apply rstrip_idempotent.
Qed.

Lemma rstrip_nonempty_app a b :
  rstrip b <> EmptyString -> rstrip (a +:+ b) = a +:+ rstrip b.
Proof.
  intros Hb. induction a as [|c a IH]; [done|].
  change (String c a +:+ b) with (String c (a +:+ b)).
  change (String c a +:+ rstrip b) with (String c (a +:+ rstrip b)).
  simpl. rewrite IH.
  destruct (a +:+ rstrip b) eqn:E; [|reflexivity].
  destruct a as [|d a']; [exact (False_ind _ (Hb E)) | discriminate E].
Qed.

Lemma all_space_lstrip s : all_space s = true <-> lstrip s = EmptyString.
Proof.
  induction s as [|c s IH]; simpl; [done|].
  destruct (isspace c); simpl; [done|]. split; discriminate.
Qed.

Lemma all_space_rstrip s : all_space s = true <-> rstrip s = EmptyString.
Proof.
  induction s as [|c s IH]; simpl; [done|].
  destruct (isspace c); simpl.
  - rewrite IH. destruct (rstrip s); split; done.
  - split; [discriminate|]. destruct (rstrip s); discriminate.
Qed.

Lemma lstrip_all_space s : all_space s = true -> all_space (lstrip s) = true.
Proof. intros H. apply all_space_lstrip in H. by rewrite H. Qed.

(** [strip] gives the empty text exactly on white space. *)
Lemma strip_empty_iff s : strip s = EmptyString <-> all_space s = true.
Proof.
  unfold strip. rewrite <- all_space_rstrip. split.
  - intros H. induction s as [|c s IH]; simpl in *; [done|].
    destruct (isspace c) eqn:Hc; simpl; [by apply IH|].
    simpl in H. by rewrite Hc in H.
  - apply lstrip_all_space.
Qed.

End StripFacts.

(** ** More on the section parser *)

Section ParserMore.
Import PyStr ResumeParser ParserSpec.

Lemma parse_line_strip st line : parse_line st (strip line) = parse_line st line.
Proof. unfold parse_line. by rewrite strip_idempotent. Qed.

Lemma parse_lines_contents st lines :
  parse_lines st (contents lines) = parse_lines st lines.
Proof.
  revert st. induction lines as [|l lines IH]; intros st; [done|].
  unfold contents. simpl.
  destruct (decide (strip l = EmptyString)) as [E|E].
  - rewrite filter_cons_False by (intros H; by apply H).
    rewrite (parse_line_blank st l E). apply IH.
  - rewrite filter_cons_True by done. simpl.
    rewrite parse_line_strip. apply IH.
Qed.

Lemma parse_line_keeps_absent st line k :
  sections st !! k = None -> sections (parse_line st line) !! k = None.
Proof.
  intros Hk. destruct (line_cases line) as [Hb|[[key Hh]|Hc]].
  - by rewrite parse_line_blank.
  - by rewrite (parse_line_heading _ _ key).
  - rewrite parse_line_content by done.
    destruct (current_section st) as [cur|]; simpl; [|done].
    rewrite lookup_alter. case_decide; [subst; by rewrite Hk | done].
Qed.

Lemma parse_lines_keeps_absent lines st k :
  sections st !! k = None -> sections (parse_lines st lines) !! k = None.
Proof.
  revert st. induction lines as [|l lines IH]; intros st Hk; [done|].
  simpl. apply IH. by apply parse_line_keeps_absent.
Qed.

Lemma init_sections_absent k :
  ~ In k section_names -> sections init_state !! k = None.
Proof.
  intros Hk. simpl.
  repeat (rewrite lookup_insert_ne; [|intros <-; apply Hk; simpl; tauto]).
  apply lookup_empty.
Qed.

(** X1. The mapping returned by [parse] has no key outside the five
    section names of [SECTION_PATTERNS]. *)
Theorem parse_keys_are_section_names (resume_text key t : string) :
  parse resume_text !! key = Some t -> In key section_names.
Proof.
  unfold parse, finish. rewrite lookup_omap. intros H.
  destruct (decide (In key section_names)) as [|Hno]; [done|].
  rewrite (parse_lines_keeps_absent _ _ _ (init_sections_absent key Hno)) in H.
  discriminate H.
Qed.

Lemma parse_keys_are_section_names_witness :
  In "experience" section_names.
Proof.
  apply (parse_keys_are_section_names
           ("EXPERIENCE" +:+ newline +:+ "Worked at Google")
           "experience" "Worked at Google").
  reflexivity.
Defined.

(** X2. What stands before the first heading is lost: a document whose
    lines are those of another one preceded by lines that match no pattern
    parses to the same mapping. *)
Theorem preamble_is_dropped (text preamble_text : string) (pre : list string) :
  splitlines preamble_text = pre ++ splitlines text ->
  Forall (fun line => no_match SECTION_PATTERNS (lower (strip line))) pre ->
  parse preamble_text = parse text.
Proof.
  intros Hlines Hpre. unfold parse. rewrite Hlines, parse_lines_app.
  by rewrite parse_lines_no_heading.
Qed.

Lemma preamble_is_dropped_witness :
  parse ("John Doe" +:+ newline +:+ "john@doe.org" +:+ newline
         +:+ "SKILLS" +:+ newline +:+ "Python")
  = parse ("SKILLS" +:+ newline +:+ "Python").
Proof.
  apply (preamble_is_dropped _ _ ["John Doe"; "john@doe.org"]).
  - reflexivity.
  - repeat constructor.
Defined.

(** X3. Blank lines and the white space around a line do not count: two
    documents whose lines, once trimmed and the empty ones removed, are the
    same parse to the same mapping. *)
Theorem parse_ignores_blank_lines_and_padding (text1 text2 : string) :
  contents (splitlines text1) = contents (splitlines text2) ->
  parse text1 = parse text2.
Proof.
  intros H. unfold parse.
  rewrite <- (parse_lines_contents init_state (splitlines text1)).
  rewrite <- (parse_lines_contents init_state (splitlines text2)).
  by rewrite H.
Qed.

Lemma parse_ignores_blank_lines_and_padding_witness :
  parse ("  SKILLS " +:+ newline +:+ newline +:+ "   Python" +:+ newline)
  = parse ("SKILLS" +:+ newline +:+ "Python").
Proof.
  apply parse_ignores_blank_lines_and_padding. reflexivity.
Defined.

Lemma trimmed_shape x :
  trimmed x ->
  (exists c r, x = String c r /\ isspace c = false) /\ rstrip x = x.
Proof.
  intros [Hne Hfix].
  destruct (strip_result x) as [E|(c & r & E & Hc)]; [congruence|].
  rewrite Hfix in E. split; [eauto|].
  rewrite <- Hfix at 2. unfold strip. rewrite lstrip_fixed; [done|].
  right. eauto.
Qed.

Lemma join_trimmed x v :
  Forall trimmed (x :: v) ->
  (exists c r, join newline (x :: v) = String c r /\ isspace c = false) /\
  rstrip (join newline (x :: v)) = join newline (x :: v).
Proof.
  revert x. induction v as [|y v IH]; intros x Hall.
  - inversion Hall; subst. by apply trimmed_shape.
  - inversion Hall as [|? ? Hx Hrest]; subst.
    destruct (trimmed_shape x Hx) as [(c & r & -> & Hc) _].
    destruct (IH y Hrest) as [(d & q & Hj & Hd) Hfix].
    change (join newline (String c r :: y :: v))
      with (String c r +:+ (newline +:+ join newline (y :: v))).
    split; [simpl; eauto|].
    assert (Hn : rstrip (newline +:+ join newline (y :: v))
                 = newline +:+ join newline (y :: v)).
    { rewrite rstrip_nonempty_app; rewrite Hfix; [done|]. by rewrite Hj. }
    rewrite rstrip_nonempty_app; rewrite Hn; [done|]. discriminate.
Qed.

Lemma strip_join_trimmed x v :
  Forall trimmed (x :: v) -> strip (join newline (x :: v)) = join newline (x :: v).
Proof.
  intros H. destruct (join_trimmed x v H) as [Hhead Hfix].
  unfold strip. rewrite lstrip_fixed by (by right). exact Hfix.
Qed.

(** X4. A value of the mapping returned by [parse] is exactly the content
    lines kept for its section, each trimmed and not empty, joined by one
    newline: the final [strip()] of the value changes nothing. *)
Theorem parse_values_are_joined_lines (resume_text key t : string) :
  parse resume_text !! key = Some t ->
  exists acc,
    sections (parse_lines init_state (splitlines resume_text)) !! key = Some acc /\
    acc <> [] /\
    Forall trimmed acc /\
    t = join newline acc.
Proof.
  unfold parse, finish. rewrite lookup_omap.
  destruct (sections _ !! key) as [acc|] eqn:E; simpl; [|done].
  destruct acc as [|x v]; [done|]. intros [= <-].
  pose proof (stored_from_lines [] (splitlines resume_text) init_state
                stored_from_init) as Hst. simpl in Hst.
  assert (Hall : Forall trimmed (x :: v)).
  { apply Forall_forall. intros y Hy. apply list_elem_of_In in Hy.
    destruct (Hst key (x :: v) y E Hy) as (l0 & _ & [Hne _] & ->).
    split; [done | apply strip_idempotent]. }
  exists (x :: v). split; [done|]. split; [done|]. split; [done|].
  by apply strip_join_trimmed.
Qed.

Lemma parse_values_are_joined_lines_witness :
  exists acc,
    sections (parse_lines init_state
                (splitlines ("EXPERIENCE" +:+ newline +:+ "  Line one at job "
                             +:+ newline +:+ newline +:+ "Line two at job")))
      !! "experience" = Some acc /\
    acc <> [] /\
    Forall trimmed acc /\
    "Line one at job" +:+ newline +:+ "Line two at job" = join newline acc.
Proof.
  apply (parse_values_are_joined_lines
           ("EXPERIENCE" +:+ newline +:+ "  Line one at job "
            +:+ newline +:+ newline +:+ "Line two at job")
           "experience").
  reflexivity.
Defined.

End ParserMore.

(** ** The blocks of a document *)

Section BlockFacts.
Import PyStr ResumeParser ParserSpec.

Lemma contents_trimmed lines : Forall trimmed (contents lines).
Proof.
  unfold contents. apply Forall_forall. intros x Hx.
  apply list_elem_of_filter in Hx as [Hne Hx].
  apply list_elem_of_fmap in Hx as (line & -> & _).
  split; [done | apply strip_idempotent].
Qed.

Lemma lines_under_trimmed key blocks : Forall trimmed (lines_under key blocks).
Proof.
  unfold lines_under. apply Forall_concat, Forall_fmap, Forall_forall.
  intros b _. apply contents_trimmed.
Qed.

Lemma lines_under_cons key b blocks :
  lines_under key (b :: blocks)
  = (if decide (block_key b = key) then contents (block_lines b) else [])
    ++ lines_under key blocks.
Proof.
  unfold lines_under. case_decide.
  - by rewrite filter_cons_True.
  - by rewrite filter_cons_False.
Qed.

Lemma lines_under_app key bs1 bs2 :
  lines_under key (bs1 ++ bs2) = lines_under key bs1 ++ lines_under key bs2.
Proof.
  induction bs1 as [|b bs1 IH]; [done|].
  simpl. by rewrite !lines_under_cons, IH, app_assoc.
Qed.

(** Every document is made of blocks, in one way. *)
Lemma document_shape (lines : list string) :
  exists pre blocks,
    lines = document pre blocks /\
    Forall (fun line => no_match SECTION_PATTERNS (lower (strip line))) pre /\
    Forall block_ok blocks.
Proof.
  induction lines as [|l lines (pre & blocks & -> & Hpre & Hblocks)].
  - exists [], []. split; [done|]. split; constructor.
  - destruct (line_cases l) as [Hb|[[key Hh]|[_ Hc]]].
    + exists (l :: pre), blocks. split; [done|]. split; [|done].
      constructor; [|done]. rewrite Hb. repeat constructor.
    + exists [], (Block key l pre :: blocks). split; [done|].
      split; [constructor|]. constructor; [|done]. by split.
    + exists (l :: pre), blocks. split; [done|]. split; [|done].
      by constructor.
Qed.

(** What the blocks add to the accumulator of a section. *)
Lemma parse_lines_blocks key blocks st :
  Forall block_ok blocks ->
  sections (parse_lines st
              (concat (map (fun b => block_heading b :: block_lines b) blocks)))
    !! key
  = (fun v => v ++ lines_under key blocks) <$> sections st !! key.
Proof.
  intros Hok. revert st.
  induction Hok as [|b blocks [Hh Hb] _ IH]; intros st.
  - simpl. destruct (sections st !! key); simpl; [|done]. by rewrite app_nil_r.
  - change (parse_lines st (concat (map ?f (b :: blocks))))
      with (parse_lines (parse_line st (block_heading b))
              (block_lines b ++ concat (map f blocks))).
    rewrite parse_lines_app.
    rewrite (parse_line_heading _ _ (block_key b)) by done.
    rewrite parse_lines_block by done. rewrite IH. simpl.
    rewrite lookup_alter, lines_under_cons.
    case_decide as Hk.
    + subst key. destruct (sections st !! block_key b); simpl; [|done].
      by rewrite app_assoc.
    + done.
Qed.

Lemma init_sections_empty key v : sections init_state !! key = Some v -> v = [].
Proof.
  simpl. intros Hk.
  repeat (rewrite lookup_insert in Hk; case_decide; [by inversion Hk|]).
  by rewrite lookup_empty in Hk.
Qed.

Lemma lines_under_absent key blocks :
  Forall block_ok blocks ->
  sections init_state !! key = None ->
  lines_under key blocks = [].
Proof.
  intros Hok Hnone. induction Hok as [|b blocks [[_ Hm] _] _ IH]; [done|].
  rewrite lines_under_cons, IH. case_decide as Hk; [|done]. subst key.
  destruct (first_matching_key _ _ Hm) as [pat Hin].
  by rewrite (init_sections_lookup _ pat Hin) in Hnone.
Qed.

Lemma join_concat sep lines : join sep lines = String.concat sep lines.
Proof.
  induction lines as [|x lines IH]; [done|].
  destruct lines as [|y lines]; [done|].
  change (x +:+ sep +:+ join sep (y :: lines)
          = x +:+ sep +:+ String.concat sep (y :: lines)).
  by rewrite IH.
Qed.

Lemma section_text_entry lines :
  Forall trimmed lines -> section_text lines = entry lines.
Proof.
  destruct lines as [|x v]; [done|]. intros H.
  unfold section_text, entry. f_equal.
  rewrite <- (join_concat newline (x :: v)). by apply strip_join_trimmed.
Qed.

Lemma parse_document text pre blocks key :
  splitlines text = document pre blocks ->
  Forall (fun line => no_match SECTION_PATTERNS (lower (strip line))) pre ->
  Forall block_ok blocks ->
  parse text !! key = entry (lines_under key blocks).
Proof.
  intros Hdoc Hpre Hok. unfold parse, finish.
  rewrite lookup_omap, Hdoc. unfold document.
  rewrite parse_lines_app, parse_lines_no_heading by done.
  rewrite parse_lines_blocks by done.
  destruct (sections init_state !! key) as [v|] eqn:E.
  - rewrite (init_sections_empty key v E). simpl.
    apply section_text_entry, lines_under_trimmed.
  - by rewrite lines_under_absent.
Qed.

(** C10. In a document made of blocks, each a heading with the lines
    that follow it up to the next heading, the entry that [parse] returns
    for a section is made of the content lines of all the blocks of this
    section, trimmed, in the order of the document, joined with newlines
    (and the section has no entry when these blocks have no content line).
    So at a block of the section that comes after others nothing is reset:
    the entry is what the blocks before it give, then the lines of this
    block, then what the blocks after it give. *)
Theorem repeated_heading_appends
    (text : string) (pre : list string) (blocks : list block) (key : string) :
  splitlines text = document pre blocks ->
  Forall (fun line => no_match SECTION_PATTERNS (lower (strip line))) pre ->
  Forall block_ok blocks ->
  parse text !! key = entry (lines_under key blocks) /\
  forall before b after,
    blocks = before ++ b :: after ->
    block_key b = key ->
    parse text !! key
    = entry (lines_under key before ++ contents (block_lines b)
             ++ lines_under key after).
Proof.
  intros Hdoc Hpre Hok.
  pose proof (parse_document text pre blocks key Hdoc Hpre Hok) as Hparse.
  split; [done|].
  intros before b after -> Hkey. rewrite Hparse.
  by rewrite lines_under_app, lines_under_cons, decide_True.
Qed.

Lemma repeated_heading_appends_witness :
  (parse two_skills_resume !! "skills"
   = entry (lines_under "skills" two_skills_blocks) /\
   forall before b after,
     two_skills_blocks = before ++ b :: after ->
     block_key b = "skills" ->
     parse two_skills_resume !! "skills"
     = entry (lines_under "skills" before ++ contents (block_lines b)
              ++ lines_under "skills" after)) /\
  entry (lines_under "skills" two_skills_blocks)
  = Some ("Python" +:+ newline +:+ "SQL" +:+ newline +:+ "Rocq").
Proof.
  split; [|reflexivity].
  apply (repeated_heading_appends two_skills_resume [] two_skills_blocks "skills").
  - reflexivity.
  - constructor.
  - repeat constructor; try discriminate; apply first_match_some; reflexivity.
Defined.

End BlockFacts.

(** ** More on the cosine similarity *)

Section CosineMore.
Local Open Scope R_scope.

Lemma dot_scale_l k u v : dot (scale k u) v = k * dot u v.
Proof.
  revert v. induction u as [|x u IH]; intros [|y v]; simpl; try lra.
  unfold scale in IH. rewrite IH. lra.
Qed.

Lemma dot_scale_r k u v : dot u (scale k v) = k * dot u v.
Proof. by rewrite dot_comm, dot_scale_l, dot_comm. Qed.

Lemma scale_length k v : length (scale k v) = length v.
Proof. apply length_map. Qed.

(** The sum of the squares of [a * y - b * x] over the components. *)
Lemma dot_quadratic u v a b :
  length u = length v ->
  0 <= a * a * dot v v - 2 * a * b * dot u v + b * b * dot u u.
Proof.
  revert v. induction u as [|x u IH]; intros [|y v] Hlen; simpl in *; try lra;
    try discriminate.
  specialize (IH v ltac:(congruence)).
  pose proof (Rle_0_sqr (a * y - b * x)) as Hsq. unfold Rsqr in Hsq. nra.
Qed.

Lemma dot_zero_r u v : dot v v = 0 -> dot u v = 0.
Proof.
  revert u. induction v as [|y v IH]; intros [|x u] H; simpl in *; try lra.
  pose proof (dot_self_nonneg v) as Hv.
  assert (Hy : y = 0) by nra. assert (Hv0 : dot v v = 0) by nra.
  rewrite (IH u Hv0), Hy. lra.
Qed.

Lemma cauchy_schwarz u v :
  length u = length v -> dot u v * dot u v <= dot u u * dot v v.
Proof.
  intros Hlen.
  destruct (Req_dec (dot v v) 0) as [Hz|Hnz].
  - rewrite (dot_zero_r u v Hz), Hz. lra.
  - pose proof (dot_quadratic u v (dot u v) (dot v v) Hlen) as H.
    pose proof (dot_self_nonneg v) as Hv.
    assert (Hpos : 0 < dot v v) by lra.
    assert (Hfac : 0 <= dot v v * (dot u u * dot v v - dot u v * dot u v)) by nra.
    destruct (Rle_dec (dot u v * dot u v) (dot u u * dot v v)) as [|Hn]; [done|].
    exfalso. apply Rnot_le_lt in Hn. nra.
Qed.

(** X5. For non-zero vectors of equal length the similarity is a number
    between -1 and 1. *)
Theorem cosine_similarity_range (a b : vec) :
  length a = length b -> nonzero a -> nonzero b ->
  exists s, cosine_similarity a b = inr s /\ -1 <= s <= 1.
Proof.
  intros Hlen Ha Hb. rewrite cosine_similarity_value by done.
  eexists. split; [reflexivity|].
  pose proof (dot_self_pos a Ha) as Hpa. pose proof (dot_self_pos b Hb) as Hpb.
  pose proof (cauchy_schwarz a b Hlen) as Hcs.
  set (n := sqrt (dot a a * dot b b)).
  assert (Hn : 0 < n) by (apply sqrt_lt_R0; nra).
  assert (Hnn : n * n = dot a a * dot b b) by (apply sqrt_sqrt; nra).
  assert (Habs : - n <= dot a b <= n) by (split; nra).
  assert (Hq : dot a b / n * n = dot a b) by (field; lra).
  assert (-1 <= dot a b / n <= 1) by (split; nra).
  lra.
Qed.

Lemma cosine_similarity_range_witness :
  exists s, cosine_similarity [1; 2] [3; -1] = inr s /\ -1 <= s <= 1.
Proof.
  apply (cosine_similarity_range [1; 2] [3; -1]).
  - reflexivity.
  - apply Exists_cons_hd. lra.
  - apply Exists_cons_hd. lra.
Defined.

(** X6. The similarity does not depend on the magnitude of a vector:
    multiplying one of two non-zero vectors of equal length by a positive
    number leaves it unchanged. *)
Theorem cosine_similarity_scale_invariant (k : R) (a b : vec) :
  0 < k -> length a = length b -> nonzero a -> nonzero b ->
  cosine_similarity (scale k a) b = cosine_similarity a b.
Proof.
  intros Hk Hlen Ha Hb.
  rewrite !cosine_similarity_value by (by rewrite ?scale_length).
  pose proof (dot_self_pos a Ha) as Hpa. pose proof (dot_self_pos b Hb) as Hpb.
  rewrite !dot_scale_l, !dot_scale_r.
  replace (k * (k * dot a a) * dot b b) with (k * k * (dot a a * dot b b)) by lra.
  rewrite sqrt_mult by nra. rewrite sqrt_square by lra.
  assert (Hn : 0 < sqrt (dot a a * dot b b)) by (apply sqrt_lt_R0; nra).
  f_equal. field. lra.
Qed.

Lemma cosine_similarity_scale_invariant_witness :
  cosine_similarity (scale 10 [1; 2]) [3; -1] = cosine_similarity [1; 2] [3; -1].
Proof.
  apply (cosine_similarity_scale_invariant 10 [1; 2] [3; -1]).
  - lra.
  - reflexivity.
  - apply Exists_cons_hd. lra.
  - apply Exists_cons_hd. lra.
Defined.

(** X7. Two non-zero vectors of equal length whose dot product is zero
    have similarity 0, and a non-zero vector and its opposite have
    similarity -1. *)
Theorem cosine_similarity_orthogonal_opposite :
  (forall a b : vec,
     length a = length b -> nonzero a -> nonzero b -> dot a b = 0 ->
     cosine_similarity a b = inr 0) /\
  (forall a : vec, nonzero a -> cosine_similarity a (scale (-1) a) = inr (-1)).
Proof.
  split.
  - intros a b Hlen _ _ Hdot. rewrite cosine_similarity_value by done.
    rewrite Hdot. f_equal. unfold Rdiv. lra.
  - intros a Ha. rewrite cosine_similarity_value by (by rewrite scale_length).
    pose proof (dot_self_pos a Ha) as Hpa.
    rewrite !dot_scale_l, !dot_scale_r.
    replace (dot a a * (-1 * (-1 * dot a a))) with (dot a a * dot a a) by lra.
    rewrite sqrt_square by lra. f_equal. field. lra.
Qed.

Lemma cosine_similarity_orthogonal_opposite_witness :
  cosine_similarity [1; 2] [-2; 1] = inr 0 /\
  cosine_similarity [1; 2] (scale (-1) [1; 2]) = inr (-1).
Proof.
  split.
  - apply (proj1 cosine_similarity_orthogonal_opposite [1; 2] [-2; 1]).
    + reflexivity.
    + apply Exists_cons_hd. lra.
    + apply Exists_cons_hd. lra.
    + simpl. lra.
  - apply (proj2 cosine_similarity_orthogonal_opposite [1; 2]).
    apply Exists_cons_hd. lra.
Defined.

End CosineMore.

(** ** More on the ranker *)

Section RankerMore.
Context (float_repr : R -> string) (default_model : SentenceTransformer).

(** *** What the steps leave alone *)

Lemma for_each_app {X} (body : X -> M unit) (xs ys : list X) w :
  for_each body (xs ++ ys) w
  = match for_each body xs w with
    | (inl e, w') => (inl e, w')
    | (inr _, w') => for_each body ys w'
    end.
Proof.
  revert w. induction xs as [|x xs IH]; intros w; [done|].
  simpl. unfold bind. destruct (body x w) as [[e|[]] w1]; [done|]. apply IH.
Qed.

Lemma cosine_similarity_mismatch resume e :
  length e <> length resume -> cosine_similarity resume e = inl ValueError.
Proof.
  intros H. unfold cosine_similarity, cosine.
  destruct (Nat.eqb_spec (length resume) (length e)) as [Heq|]; [|done].
  by rewrite Heq in H.
Qed.

(** The scoring loop touches the records only, whatever its outcome. *)
Lemma score_loop_frame resume pairs w :
  files (snd (for_each (score_job resume) pairs w)) = files w /\
  stdout (snd (for_each (score_job resume) pairs w)) = stdout w /\
  batch_calls (snd (for_each (score_job resume) pairs w)) = batch_calls w.
Proof.
  revert w. induction pairs as [|[l e] pairs IH]; intros w; [done|].
  simpl. unfold bind at 1. unfold score_job, bind, lift. simpl.
  destruct (cosine_similarity resume e) as [err|x]; [done|]. simpl.
  unfold setitem. apply (IH (World _ _ _ _)).
Qed.

(** Reading the scores changes nothing, whatever its outcome. *)
Lemma map_m_getitem_world key jobs w :
  snd (map_m (fun job => getitem job key) jobs w) = w.
Proof.
  induction jobs as [|job jobs IH]; [done|].
  simpl. unfold bind, getitem at 1.
  destruct (deref w job !! key); [|done].
  destruct (map_m _ jobs w) as [[e|ys] w'] eqn:E; simpl in *; by subst.
Qed.

Lemma sorted_by_score_world jobs w : snd (sorted_by_score jobs w) = w.
Proof.
  unfold sorted_by_score, bind.
  pose proof (map_m_getitem_world "similarity_score" jobs w) as H.
  destruct (map_m _ jobs w) as [[e|keys] w'] eqn:E; simpl in H; subst; [done|].
  unfold lift. by destruct (sort_keyed_reverse (zip keys jobs)).
Qed.

Lemma save_jobs_batch_calls jobs filename w :
  batch_calls (snd (save_jobs jobs filename w)) = batch_calls w.
Proof. by destruct jobs. Qed.

(** *** One batch call *)

(** X8. A call of [rank_jobs] sends at most one batch to the embedding
    service: none when the list is empty or a record lacks a text field,
    and otherwise exactly one, holding the texts of all the records in
    order, whether the call then returns or raises. *)
Theorem rank_jobs_one_batch_call resume jobs top_n svc csv w :
  (jobs = [] \/ Exists (fun job => ~ has_text_fields w job) jobs ->
   batch_calls (snd (rank_jobs float_repr default_model resume jobs top_n
                       (Some svc) csv w))
   = batch_calls w) /\
  (jobs <> [] -> Forall (has_text_fields w) jobs ->
   batch_calls (snd (rank_jobs float_repr default_model resume jobs top_n
                       (Some svc) csv w))
   = batch_calls w ++ [map (text_of float_repr w) jobs]).
Proof.
  split.
  - intros [->|Hex]; [done|].
    destruct (map_m_job_text_missing float_repr w jobs Hex) as (key & _ & Hrun).
    destruct jobs as [|j jobs]; [by inversion Hex|].
    unfold rank_jobs. unfold bind at 1. by rewrite Hrun.
  - intros Hne Hfields. rewrite rank_jobs_body by done.
    unfold bind at 1. rewrite map_m_job_text_ok by done.
    unfold bind at 1. unfold call_batch. unfold bind at 1.
    set (w1 := World _ _ _ _).
    destruct (score_loop_frame resume
                (zip jobs (get_embeddings_batch svc (map (text_of float_repr w) jobs)))
                w1) as (_ & _ & Hcalls).
    destruct (for_each _ _ w1) as [[e|[]] w2]; simpl in Hcalls; [done|].
    unfold bind at 1.
    pose proof (sorted_by_score_world jobs w2) as Hw.
    destruct (sorted_by_score jobs w2) as [[e|ranked] w3]; simpl in Hw; subst w3;
      [done|].
    unfold bind.
    pose proof (save_jobs_batch_calls (slice_to ranked top_n) csv w2) as Hs.
    destruct (save_jobs _ csv w2) as [[e|[]] w4]; simpl in *; congruence.
Qed.

(** *** A vector of the wrong dimension *)

(** X9. When a vector paired with a record has not the dimension of the
    reference, [rank_jobs] raises [ValueError] at that record: no file is
    written, the records paired before it already carry their score, and
    all other records are as they were. *)
Theorem rank_jobs_dimension_mismatch resume jobs top_n svc csv w good l e rest :
  jobs <> [] ->
  Forall (has_text_fields w) jobs ->
  zip jobs (batch_result float_repr svc w jobs) = good ++ (l, e) :: rest ->
  Forall (fun p => length (snd p) = length resume) good ->
  length e <> length resume ->
  exists w',
    rank_jobs float_repr default_model resume jobs top_n (Some svc) csv w
    = (inl ValueError, w') /\
    files w' = files w /\
    (forall l', l' ∈ good.*1 ->
       exists x, heap w' !! l'
                 = Some (<["similarity_score" := VFloat x]> (deref w l'))) /\
    (forall l', l' ∉ good.*1 -> heap w' !! l' = heap w !! l').
Proof.
  intros Hne Hfields Hzip Hgood Hbad.
  rewrite rank_jobs_body by done.
  unfold bind at 1. rewrite map_m_job_text_ok by done.
  unfold bind at 1. unfold call_batch. unfold bind at 1.
  set (w1 := World _ _ _ _).
  unfold batch_result in Hzip. rewrite Hzip, for_each_app.
  destruct (score_loop resume good w1 Hgood) as (h' & Hrun & Hout & Hin).
  rewrite Hrun. simpl. unfold bind at 1. unfold score_job, bind, lift. simpl.
  rewrite (cosine_similarity_mismatch resume e Hbad). simpl.
  eexists. split; [reflexivity|]. simpl. split; [done|]. split.
  - intros l' Hl'. destruct (Hin l' Hl') as (x & e' & _ & _ & Hh). eauto.
  - exact Hout.
Qed.

(** *** Each record gets the score of its own vector *)

Lemma zip_lookup_unique (jobs : list loc) (embs : list vec) i l e e' :
  NoDup jobs -> jobs !! i = Some l -> embs !! i = Some e ->
  (l, e') ∈ zip jobs embs -> e' = e.
Proof.
  intros Hnd Hl He Hin.
  apply list_elem_of_lookup in Hin as [j Hj].
  apply lookup_zip_with_Some in Hj as (l2 & e2 & Heq & Hl2 & He2).
  inversion Heq; subst l2 e2.
  assert (i = j) as -> by (eapply NoDup_lookup; eauto). congruence.
Qed.

(** X10. The scores are aligned with the batch by position: when no
    record occurs twice in the list, after the call the record at position
    [i] holds the similarity of the reference with the vector at position
    [i] of the answer. *)
Theorem rank_jobs_scores_are_positional resume jobs top_n svc csv w :
  jobs <> [] ->
  NoDup jobs ->
  Forall (has_text_fields w) jobs ->
  Forall (fun e => length e = length resume) (batch_result float_repr svc w jobs) ->
  length (batch_result float_repr svc w jobs) = length jobs ->
  exists res w',
    rank_jobs float_repr default_model resume jobs top_n (Some svc) csv w
    = (inr res, w') /\
    forall i l e,
      jobs !! i = Some l ->
      batch_result float_repr svc w jobs !! i = Some e ->
      exists x,
        cosine_similarity resume e = inr x /\
        deref w' l !! "similarity_score" = Some (VFloat x).
Proof.
  intros Hne Hnd Hfields Hdim Hlen.
  destruct (rank_jobs_ok float_repr default_model resume jobs top_n svc csv w)
    as (h' & ranked & msg & Hrun & _ & _ & Hin); [done | done | done | lia |].
  eexists _, _. split; [exact Hrun|].
  intros i l e Hl He.
  destruct (Hin l) as (x & e' & Hpair & Hx & Hh).
  { by eapply list_elem_of_lookup_2. }
  rewrite (zip_lookup_unique jobs _ i l e e' Hnd Hl He Hpair) in Hx.
  exists x. split; [done|]. unfold deref. simpl. rewrite Hh. simpl.
  by rewrite lookup_insert_eq.
Qed.

(** *** The edges of [top_n] *)



(** X12. With [top_n = 0] the call returns the empty list and writes no
    file, yet it has sent its batch to the service and scored every
    record. *)
Theorem rank_jobs_zero_top_n resume jobs svc csv w :
  jobs <> [] ->
  Forall (has_text_fields w) jobs ->
  Forall (fun e => length e = length resume) (batch_result float_repr svc w jobs) ->
  length (batch_result float_repr svc w jobs) = length jobs ->
  exists w',
    rank_jobs float_repr default_model resume jobs 0 (Some svc) csv w
    = (inr [], w') /\
    files w' = files w /\
    batch_calls w' = batch_calls w ++ [map (text_of float_repr w) jobs] /\
    forall l, l ∈ jobs ->
      exists x, heap w' !! l
                = Some (<["similarity_score" := VFloat x]> (deref w l)).
Proof.
  intros Hne Hfields Hdim Hlen.
  destruct (rank_jobs_ok float_repr default_model resume jobs 0 svc csv w)
    as (h' & ranked & msg & Hrun & _ & _ & Hin); [done | done | done | lia |].
  eexists. split; [exact Hrun|]. simpl. split; [done|]. split; [done|].
  intros l Hl. destruct (Hin l Hl) as (x & e & _ & _ & Hh). eauto.
Qed.

(** *** Ties *)

Lemma stable_sorted_desc_constant {X} (f : X -> R) (l : list X) (c : R) :
  (forall a, a ∈ l -> f a = c) -> stable_sorted_desc f l l.
Proof.
  intros Hc. split; [done|]. split; [|done].
  induction l as [|a l IH]; constructor.
  - apply IH. intros b Hb. apply Hc. by right.
  - apply Forall_forall. intros b Hb.
    rewrite (Hc a) by left. rewrite (Hc b) by (by right). lra.
Qed.

Lemma rank_jobs_constant resume jobs (top_n : nat) svc csv w v :
  jobs <> [] ->
  Forall (has_text_fields w) jobs ->
  Forall (fun e => e = v) (batch_result float_repr svc w jobs) ->
  length v = length resume ->
  length (batch_result float_repr svc w jobs) = length jobs ->
  exists c w',
    cosine_similarity resume v = inr c /\
    rank_jobs float_repr default_model resume jobs (Z.of_nat top_n) (Some svc) csv w
    = (inr (take top_n jobs), w') /\
    forall l, l ∈ jobs ->
      heap w' !! l = Some (<["similarity_score" := VFloat c]> (deref w l)).
Proof.
  intros Hne Hfields Hsame Hv Hlen.
  assert (Hdim : Forall (fun e => length e = length resume)
                   (batch_result float_repr svc w jobs)).
  { eapply Forall_impl; [exact Hsame|]. by intros e ->. }
  destruct (rank_jobs_ok float_repr default_model resume jobs (Z.of_nat top_n)
              svc csv w)
    as (h' & ranked & msg & Hrun & Hspec & _ & Hin); [done | done | done | lia |].
  destruct (cosine_similarity_defined resume v Hv) as [c Hc].
  assert (Hscore : forall l, l ∈ jobs ->
            h' !! l = Some (<["similarity_score" := VFloat c]> (deref w l))).
  { intros l Hl. destruct (Hin l Hl) as (x & e & Hpair & Hx & Hh).
    assert (e = v) as ->.
    { rewrite Forall_forall in Hsame. apply Hsame.
      apply list_elem_of_lookup in Hpair as [j Hj].
      apply lookup_zip_with_Some in Hj as (l2 & e2 & Heq & _ & He2).
      inversion Heq; subst. by eapply list_elem_of_lookup_2. }
    rewrite Hh. congruence. }
  assert (Hconst : forall l, l ∈ jobs -> score_of h' l = c).
  { intros l Hl. unfold score_of. rewrite (Hscore l Hl). simpl.
    by rewrite lookup_insert_eq. }
  assert (ranked = jobs) as ->.
  { eapply stable_sorted_desc_unique; [exact Hspec|].
    by eapply stable_sorted_desc_constant. }
  exists c. eexists. split; [exact Hc|]. split.
  - rewrite Hrun, slice_to_nat.
    destruct (Nat.le_ge_cases top_n (length jobs)).
    + by rewrite Nat.min_l.
    + rewrite Nat.min_r by done. by rewrite !take_ge.
  - exact Hscore.
Qed.

(** X13. When the service gives the same vector for every record, the
    order of the input is kept: the call returns the first [top_n] records
    of the list as it was given. *)
Theorem rank_jobs_ties_keep_input_order resume jobs (top_n : nat) svc csv w v :
  jobs <> [] ->
  Forall (has_text_fields w) jobs ->
  Forall (fun e => e = v) (batch_result float_repr svc w jobs) ->
  length v = length resume ->
  length (batch_result float_repr svc w jobs) = length jobs ->
  exists w',
    rank_jobs float_repr default_model resume jobs (Z.of_nat top_n) (Some svc) csv w
    = (inr (take top_n jobs), w').
Proof.
  intros Hne Hfields Hsame Hv Hlen.
  destruct (rank_jobs_constant resume jobs top_n svc csv w v)
    as (c & w' & _ & Hrun & _); try done.
  by exists w'.
Qed.

(** *** The mock service *)

(** X24. With [MockEmbeddingService] the ranking tells nothing about the
    records: for a reference of three components every record gets one and
    the same score, that of the reference with [1, 0, 0], and the call
    returns the first [top_n] records in the order given; for a reference
    of any other dimension the call raises [ValueError] at the first
    record, with no record changed and no file written. *)
Theorem rank_jobs_with_mock resume jobs (top_n : nat) csv w :
  jobs <> [] ->
  Forall (has_text_fields w) jobs ->
  (length resume = 3%nat ->
   exists c w',
     cosine_similarity resume [1; 0; 0]%R = inr c /\
     rank_jobs float_repr default_model resume jobs (Z.of_nat top_n)
       (Some MockEmbeddingService) csv w
     = (inr (take top_n jobs), w') /\
     forall l, l ∈ jobs ->
       deref w' l !! "similarity_score" = Some (VFloat c)) /\
  (length resume <> 3%nat ->
   exists w',
     rank_jobs float_repr default_model resume jobs (Z.of_nat top_n)
       (Some MockEmbeddingService) csv w
     = (inl ValueError, w') /\
     heap w' = heap w /\
     files w' = files w).
Proof.
  intros Hne Hfields. split.
  - intros Hlen.
    destruct (rank_jobs_constant resume jobs top_n MockEmbeddingService csv w
                [1; 0; 0]%R)
      as (c & w' & Hc & Hrun & Hscore); try done.
    + unfold batch_result. simpl. apply Forall_forall. intros e He.
      apply list_elem_of_fmap in He. by destruct He as (? & -> & _).
    + unfold batch_result. simpl. by rewrite !length_map.
    + exists c, w'. split; [done|]. split; [done|].
      intros l Hl. unfold deref. rewrite (Hscore l Hl). simpl.
      by rewrite lookup_insert_eq.
  - intros Hbad.
    rewrite rank_jobs_body by done.
    unfold bind at 1. rewrite map_m_job_text_ok by done.
    unfold bind at 1. unfold call_batch. unfold bind at 1.
    destruct jobs as [|l jobs]; [done|]. simpl.
    unfold bind at 1. unfold score_job, bind, lift. simpl.
    rewrite (cosine_similarity_mismatch resume [1; 0; 0]%R) by (simpl; congruence).
    simpl. eexists. split; [reflexivity|]. by split.
Qed.

(** *** Ranking again *)

Lemma text_of_ext w w' l :
  deref w' l !! "title" = deref w l !! "title" ->
  deref w' l !! "company" = deref w l !! "company" ->
  deref w' l !! "description" = deref w l !! "description" ->
  text_of float_repr w' l = text_of float_repr w l.
Proof.
  intros Ht Hc Hd. unfold text_of, job_text, bind, getitem.
  rewrite Ht. destruct (deref w l !! "title"); [|done].
  rewrite Hc. destruct (deref w l !! "company"); [|done].
  rewrite Hd. by destruct (deref w l !! "description").
Qed.

(** X14. Ranking is repeatable: when no record occurs twice in the list,
    a second call with the same arguments on the records left by the first
    returns the same list and leaves the records and the files as the first
    call left them. *)
Theorem rank_jobs_repeatable resume jobs top_n svc csv w :
  jobs <> [] ->
  NoDup jobs ->
  Forall (has_text_fields w) jobs ->
  Forall (fun e => length e = length resume) (batch_result float_repr svc w jobs) ->
  length (batch_result float_repr svc w jobs) = length jobs ->
  exists res w1 w2,
    rank_jobs float_repr default_model resume jobs top_n (Some svc) csv w
    = (inr res, w1) /\
    rank_jobs float_repr default_model resume jobs top_n (Some svc) csv w1
    = (inr res, w2) /\
    heap w2 = heap w1 /\
    files w2 = files w1.
Proof.
  intros Hne Hnd Hfields Hdim Hlen.
  destruct (rank_jobs_ok float_repr default_model resume jobs top_n svc csv w)
    as (h1 & ranked1 & msg1 & Hrun1 & Hspec1 & Hout1 & Hin1);
    [done | done | done | lia |].
  set (w1 := World h1 _ _ _) in Hrun1.
  assert (Hderef : forall l, l ∈ jobs ->
            exists x, deref w1 l = <["similarity_score" := VFloat x]> (deref w l)).
  { intros l Hl. destruct (Hin1 l Hl) as (x & e & _ & _ & Hh).
    exists x. unfold deref at 1. simpl. by rewrite Hh. }
  assert (Htext : map (text_of float_repr w1) jobs = map (text_of float_repr w) jobs).
  { apply map_ext_in. intros l Hl. apply list_elem_of_In in Hl.
    destruct (Hderef l Hl) as [x Hx].
    apply text_of_ext; rewrite Hx; by rewrite lookup_insert_ne. }
  assert (Hbatch : batch_result float_repr svc w1 jobs
                   = batch_result float_repr svc w jobs).
  { unfold batch_result. by rewrite Htext. }
  assert (Hfields1 : Forall (has_text_fields w1) jobs).
  { apply Forall_forall. intros l Hl. rewrite Forall_forall in Hfields.
    destruct (Hderef l Hl) as [x Hx]. specialize (Hfields l Hl).
    unfold has_text_fields in *. rewrite Hx.
    by rewrite !lookup_insert_ne. }
  destruct (rank_jobs_ok float_repr default_model resume jobs top_n svc csv w1)
    as (h2 & ranked2 & msg2 & Hrun2 & Hspec2 & Hout2 & Hin2);
    [done | done | by rewrite Hbatch | rewrite Hbatch; lia |].
  assert (Hheap : h2 = h1).
  { apply map_eq. intros l. destruct (decide (l ∈ jobs)) as [Hl|Hl].
    - destruct (Hin1 l Hl) as (x1 & e1 & Hp1 & Hx1 & Hh1).
      destruct (Hin2 l Hl) as (x2 & e2 & Hp2 & Hx2 & Hh2).
      rewrite Hbatch in Hp2.
      apply list_elem_of_lookup in Hl as [i Hi].
      destruct (lookup_lt_is_Some_2 (batch_result float_repr svc w jobs) i)
        as [e He].
      { rewrite Hlen. by eapply lookup_lt_Some. }
      rewrite (zip_lookup_unique jobs _ i l e e1 Hnd Hi He Hp1) in Hx1.
      rewrite (zip_lookup_unique jobs _ i l e e2 Hnd Hi He Hp2) in Hx2.
      assert (x2 = x1) as -> by congruence.
      rewrite Hh2, Hh1. f_equal. unfold deref at 1. simpl. rewrite Hh1. simpl.
      by rewrite insert_insert_eq.
    - rewrite Hout2 by done. done. }
  subst h2.
  assert (ranked2 = ranked1) as ->
    by (eapply stable_sorted_desc_unique; eauto).
  eexists _, _, _. split; [exact Hrun1|]. split; [exact Hrun2|].
  simpl. split; [done|].
  destruct (slice_to ranked1 top_n); [done|]. by rewrite insert_insert_eq.
Qed.

End RankerMore.

(** ** The job fetcher *)

Section FetcherFacts.

(** *** Records built from the answer *)

Lemma convert_job_keys job r : convert_job job = inr r -> dom r = job_keys.
Proof.
  unfold convert_job. destruct (py_add _ _) as [|c]; [done|].
  destruct (py_add c _) as [|loc0]; [done|]. intros [= <-].
  unfold job_keys. rewrite !dom_insert_L, dom_singleton_L. set_solver.
Qed.

Lemma convert_page_spec jobs data jobs' oe :
  convert_page jobs data = (jobs', oe) ->
  exists rs,
    jobs' = jobs ++ rs /\
    Forall (fun r => dom r = job_keys) rs /\
    (length rs <= length data)%nat /\
    (oe = None -> Forall2 (fun job r => convert_job job = inr r) data rs).
Proof.
  revert jobs. induction data as [|job data IH]; intros jobs; simpl.
  - intros [= <- <-]. exists []. rewrite app_nil_r.
    split; [done|]. split; [constructor|]. split; [done|]. constructor.
  - destruct (convert_job job) as [e|r] eqn:E.
    + intros [= <- <-]. exists []. rewrite app_nil_r.
      split; [done|]. split; [constructor|]. split; [simpl; lia | done].
    + intros H. destruct (IH _ H) as (rs & -> & Hall & Hlen & Hok).
      exists (r :: rs). rewrite <- app_assoc. simpl.
      split; [done|]. split.
      { constructor; [by eapply convert_job_keys | done]. }
      split; [lia|]. intros Hoe. constructor; [done | by apply Hok].
Qed.

Lemma convert_page_all jobs data rs :
  Forall2 (fun job r => convert_job job = inr r) data rs ->
  convert_page jobs data = (jobs ++ rs, None).
Proof.
  intros H. revert jobs. induction H as [|job r data rs Hc _ IH]; intros jobs; simpl.
  - by rewrite app_nil_r.
  - rewrite Hc, IH, <- app_assoc. done.
Qed.

(** *** The loop *)

Section Loop.
Variables (get : Z -> http_response) (max_jobs : Z).

Local Abbreviation wanted := (records_wanted max_jobs).
Local Abbreviation running := (fetch_running max_jobs).
Local Abbreviation finished := (fetch_finished max_jobs).

(** A turn that goes on was allowed by the loop condition and has added
    a record. *)
Lemma fetch_step_progress st next :
  fetch_step get max_jobs st = inr next ->
  (Z.of_nat (length (fetched st)) < max_jobs)%Z /\
  (length (fetched st) < length (fetched next))%nat /\
  (Z.of_nat (length (fetched next)) < max_jobs)%Z.
Proof.
  unfold fetch_step.
  destruct (Z.ltb_spec (Z.of_nat (length (fetched st))) max_jobs) as [Hlt|]; [|done].
  destruct (get (page st)) as [|code data]; [done|].
  destruct (negb (code =? 200)%Z); [done|].
  destruct data as [|job data]; [done|].
  destruct (convert_page (fetched st) (job :: data)) as [jobs [e|]] eqn:E; [done|].
  destruct (Z.leb_spec max_jobs (Z.of_nat (length jobs))) as [|Hgo]; [done|].
  intros [= <-]. simpl.
  destruct (convert_page_spec _ _ _ _ E) as (rs & -> & _ & _ & Hok).
  specialize (Hok eq_refl). apply Forall2_length in Hok. simpl in Hok.
  rewrite length_app in *. split; [done|]. split; lia.
Qed.

Lemma fetch_step_stop st :
  (max_jobs <= Z.of_nat (length (fetched st)))%Z ->
  fetch_step get max_jobs st = inl st.
Proof.
  intros H. unfold fetch_step.
  by destruct (Z.ltb_spec (Z.of_nat (length (fetched st))) max_jobs); [lia|].
Qed.

(** More turns than records wanted change nothing. *)
Lemma fetch_loop_turns n m st :
  (wanted st <= n)%nat -> (wanted st <= m)%nat ->
  fetch_loop n get max_jobs st = fetch_loop m get max_jobs st.
Proof.
  revert m st. induction n as [|n IH]; intros m st Hn Hm.
  - destruct m as [|m]; [done|]. simpl.
    rewrite fetch_step_stop; [done|]. unfold records_wanted in Hn. lia.
  - destruct m as [|m]; simpl.
    + rewrite fetch_step_stop; [done|]. unfold records_wanted in Hm. lia.
    + destruct (fetch_step get max_jobs st) as [final|next] eqn:E; [done|].
      destruct (fetch_step_progress st next E) as (H1 & H2 & H3).
      apply IH; unfold records_wanted in *; lia.
Qed.

(** The equation of the [while] loop. *)
Lemma fetch_pages_unfold st :
  fetch_pages get max_jobs st
  = match fetch_step get max_jobs st with
    | inl final => final
    | inr next => fetch_pages get max_jobs next
    end.
Proof.
  unfold fetch_pages. fold (records_wanted max_jobs st).
  destruct (wanted st) as [|n] eqn:Hw.
  - simpl. rewrite fetch_step_stop; [done|]. unfold records_wanted in Hw. lia.
  - simpl. destruct (fetch_step get max_jobs st) as [final|next] eqn:E; [done|].
    destruct (fetch_step_progress st next E) as (H1 & H2 & H3).
    fold (records_wanted max_jobs next). apply fetch_loop_turns; unfold records_wanted in *; lia.
Qed.

Lemma seqZ_snoc n : seqZ 1 (Z.of_nat n) ++ [(1 + Z.of_nat n)%Z] = seqZ 1 (Z.of_nat (S n)).
Proof.
  replace (Z.of_nat (S n)) with (Z.of_nat n + 1)%Z by lia.
  by rewrite seqZ_app by lia.
Qed.

Lemma asked_consecutive st :
  running st ->
  requested st ++ [page st]
  = seqZ 1 (Z.of_nat (length (requested st ++ [page st]))).
Proof.
  intros (_ & Hreq & Hpage & _ & _). rewrite length_app. simpl.
  rewrite Nat.add_1_r, <- seqZ_snoc, <- Hreq, Hpage. done.
Qed.

Lemma fetch_step_running st :
  running st ->
  match fetch_step get max_jobs st with
  | inl final => finished final
  | inr next => running next
  end.
Proof.
  intros Hrun. pose proof Hrun as (Hkeys & Hreq & Hpage & Hlen & Hmax).
  pose proof (asked_consecutive st Hrun) as Hasked.
  unfold fetch_step.
  destruct (Z.ltb_spec (Z.of_nat (length (fetched st))) max_jobs) as [Hlt|Hge].
  - assert (Hbound : (length (requested st ++ [page st]) <= Z.to_nat max_jobs)%nat)
      by (rewrite length_app; simpl; lia).
    destruct (get (page st)) as [|code data]; [by repeat split|].
    destruct (negb (code =? 200)%Z); [by repeat split|].
    destruct data as [|job data]; [by repeat split|].
    destruct (convert_page (fetched st) (job :: data)) as [jobs oe] eqn:E.
    destruct (convert_page_spec _ _ _ _ E) as (rs & -> & Hrs & _ & Hok).
    assert (Hall : Forall (fun r => dom r = job_keys) (fetched st ++ rs))
      by (by apply Forall_app).
    destruct oe as [e|]; [by repeat split|].
    specialize (Hok eq_refl). apply Forall2_length in Hok. simpl in Hok.
    destruct (Z.leb_spec max_jobs (Z.of_nat (length (fetched st ++ rs))));
      [by repeat split|].
    split; [done|]. simpl. split; [done|]. rewrite !length_app. simpl.
    split; [lia|]. split; lia.
  - by repeat split.
Qed.

Lemma fetch_loop_finished n st :
  running st -> finished (fetch_loop n get max_jobs st).
Proof.
  revert st. induction n as [|n IH]; intros st Hrun.
  - simpl. destruct Hrun as (Hkeys & Hreq & _ & _ & Hmax). by repeat split.
  - simpl. pose proof (fetch_step_running st Hrun) as Hstep.
    destruct (fetch_step get max_jobs st) as [final|next] eqn:E; [done|].
    by apply IH.
Qed.

Lemma fetch_pages_finished : finished (fetch_pages get max_jobs fetch_start).
Proof.
  apply fetch_loop_finished. repeat split; simpl; auto; lia.
Qed.

Lemma fetch_pages_nothing_wanted st :
  (max_jobs <= Z.of_nat (length (fetched st)))%Z -> fetch_pages get max_jobs st = st.
Proof. intros H. by rewrite fetch_pages_unfold, fetch_step_stop. Qed.

End Loop.

End FetcherFacts.

(** *** The whole call *)

Section FetchJobsFacts.
Context (requests_get : string -> string -> string -> Z -> http_response).

Lemma for_each_print msgs w :
  for_each print msgs w
  = (inr tt, World (heap w) (files w) (stdout w ++ msgs) (batch_calls w)).
Proof.
  revert w. induction msgs as [|m msgs IH]; intros w; simpl.
  - rewrite app_nil_r. by destruct w.
  - unfold bind. unfold print at 1. rewrite IH. simpl. by rewrite <- app_assoc.
Qed.

(** The records created are new, distinct, hold what they were created
    with, and the records that were there are untouched. *)
Lemma map_m_alloc ds w :
  exists locs h',
    map_m alloc ds w
      = (inr locs, World h' (files w) (stdout w) (batch_calls w)) /\
    NoDup locs /\
    (forall l, l ∈ locs -> l ∉ dom (heap w)) /\
    Forall2 (fun l d => h' !! l = Some d) locs ds /\
    (forall l, l ∉ locs -> h' !! l = heap w !! l).
Proof.
  revert w. induction ds as [|d ds IH]; intros w.
  - exists [], (heap w). split; [by destruct w|].
    split; [constructor|]. split; [intros l Hl; by apply elem_of_nil in Hl|].
    split; [constructor | done].
  - simpl. unfold bind at 1. unfold alloc at 1.
    set (l0 := fresh (dom (heap w))).
    assert (Hfresh : l0 ∉ dom (heap w)) by apply is_fresh.
    set (w1 := World _ _ _ _).
    destruct (IH w1) as (locs & h' & Hrun & Hnd & Hnew & Hheld & Hold).
    unfold bind. rewrite Hrun. simpl.
    assert (Hl0 : l0 ∉ locs).
    { intros Hin. apply (Hnew l0 Hin). unfold w1. simpl.
      rewrite dom_insert_L. set_solver. }
    exists (l0 :: locs), h'. split; [done|].
    split; [by constructor|]. split; [|split].
    + intros l Hl. apply elem_of_cons in Hl as [->|Hl]; [done|].
      specialize (Hnew l Hl). unfold w1 in Hnew. simpl in Hnew.
      rewrite dom_insert_L in Hnew. set_solver.
    + constructor; [|done]. rewrite Hold by done. unfold w1. simpl.
      by rewrite lookup_insert_eq.
    + intros l Hl. apply not_elem_of_cons in Hl as [Hne Hl].
      rewrite Hold by done. unfold w1. simpl. by rewrite lookup_insert_ne.
Qed.

Lemma slice_to_length_le {X} (l : list X) (n : Z) :
  (0 <= n)%Z -> (length (slice_to l n) <= Z.to_nat n)%nat.
Proof.
  intros Hn. unfold slice_to. rewrite (proj2 (Z.leb_le 0 n)) by done.
  rewrite length_take. lia.
Qed.

(** The call, step by step: the lines of the loop are printed, the
    records created, and the truncated list saved when it is not empty. *)
Lemma fetch_jobs_run api_key query location max_jobs w :
  exists created h' msg,
    let st := fetch_pages (requests_get api_key query location) max_jobs
                fetch_start in
    let jobs := slice_to created max_jobs in
    fetch_jobs requests_get api_key query location max_jobs w
    = (inr jobs,
       World h'
         (match jobs with
          | [] => files w
          | _ => <[default_jobs_file := rows_of h' jobs]> (files w)
          end)
         (stdout w ++ printed st ++ [msg])
         (batch_calls w)) /\
    NoDup created /\
    (forall l, l ∈ created -> l ∉ dom (heap w)) /\
    Forall2 (fun l d => h' !! l = Some d) created (fetched st) /\
    (forall l, l ∉ created -> h' !! l = heap w !! l).
Proof.
  unfold fetch_jobs.
  set (st := fetch_pages _ max_jobs fetch_start).
  unfold bind at 1. rewrite for_each_print. set (w0 := World _ _ _ _).
  destruct (map_m_alloc (fetched st) w0)
    as (created & h' & Hrun & Hnd & Hnew & Hheld & Hold).
  unfold bind at 1. rewrite Hrun.
  destruct (slice_to created max_jobs) as [|l0 rest] eqn:Hs.
  - exists created, h', "No jobs fetched from API.". simpl. rewrite Hs.
    split; [|by repeat split].
    unfold bind, print, ret. simpl. by rewrite <- app_assoc.
  - exists created, h',
      ("Saved " +:+ pretty (length (l0 :: rest)) +:+ " jobs to "
       +:+ default_jobs_file).
    simpl. rewrite Hs. split; [|by repeat split].
    unfold bind, save_jobs, ret. simpl. by rewrite <- app_assoc.
Qed.

(** X15. Whatever the service answers, the loop of [fetch_jobs] ends
    after at most [max_jobs] requests, made for the pages 1, 2, ... in
    order, and a call that returns gives at most [max_jobs] records. *)
Theorem fetch_jobs_bounded api_key query location max_jobs w :
  requested (fetch_pages (requests_get api_key query location) max_jobs
               fetch_start)
  = seqZ 1 (Z.of_nat
              (length (requested
                         (fetch_pages (requests_get api_key query location)
                            max_jobs fetch_start)))) /\
  (length (requested (fetch_pages (requests_get api_key query location)
                        max_jobs fetch_start))
   <= Z.to_nat max_jobs)%nat /\
  forall jobs w',
    fetch_jobs requests_get api_key query location max_jobs w = (inr jobs, w') ->
    (length jobs <= Z.to_nat max_jobs)%nat.
Proof.
  destruct (fetch_pages_finished (requests_get api_key query location) max_jobs)
    as (_ & Hreq & Hlen).
  split; [done|]. split; [done|].
  intros jobs w' Hret.
  destruct (fetch_jobs_run api_key query location max_jobs w)
    as (created & h' & msg & Hrun & _ & _ & Hheld & _).
  simpl in Hrun. rewrite Hrun in Hret. inversion Hret as [[Hjobs Hw]].
  clear Hret Hw Hrun.
  destruct (Z.le_gt_cases 0 max_jobs) as [Hpos|Hneg].
  - by apply slice_to_length_le.
  - rewrite fetch_pages_nothing_wanted in Hheld by (simpl; lia).
    apply Forall2_length in Hheld. simpl in Hheld.
    destruct created; [|done]. unfold slice_to.
    destruct (0 <=? max_jobs)%Z; rewrite take_nil; simpl; lia.
Qed.

Lemma fetch_jobs_fields api_key query location max_jobs w :
  exists jobs w',
    fetch_jobs requests_get api_key query location max_jobs w = (inr jobs, w') /\
    NoDup jobs /\
    (forall l, l ∈ jobs ->
       (l ∉ dom (heap w)) /\ dom (deref w' l) = job_keys /\
       has_text_fields w' l) /\
    (forall l, l ∈ dom (heap w) -> heap w' !! l = heap w !! l).
Proof.
  destruct (fetch_jobs_run api_key query location max_jobs w)
    as (created & h' & msg & Hrun & Hnd & Hnew & Hheld & Hold).
  simpl in Hrun. eexists _, _. split; [exact Hrun|].
  destruct (fetch_pages_finished (requests_get api_key query location) max_jobs)
    as (Hkeys & _ & _).
  assert (Hsub : forall l, l ∈ slice_to created max_jobs -> l ∈ created)
    by (intros l; apply slice_to_subseteq).
  split; [|split].
  - unfold slice_to.
    destruct (0 <=? max_jobs)%Z;
      (eapply sublist_NoDup; [exact Hnd | apply sublist_take]).
  - intros l Hl. specialize (Hsub l Hl). split; [by apply Hnew|].
    apply list_elem_of_lookup in Hsub as [i Hi].
    destruct (Forall2_lookup_l _ _ _ _ _ Hheld Hi) as (d & Hd & Hh).
    assert (Hdom : dom d = job_keys).
    { rewrite Forall_forall in Hkeys. apply Hkeys.
      by eapply list_elem_of_lookup_2. }
    unfold has_text_fields, deref. simpl. rewrite Hh. simpl.
    split; [done|].
    repeat split; apply elem_of_dom; rewrite Hdom; unfold job_keys; set_solver.
  - intros l Hl. simpl. apply Hold. intros Hin. by apply (Hnew l Hin).
Qed.

(** X16. The records returned by [fetch_jobs] are new records, all
    distinct, each with exactly the six keys [title], [company],
    [publisher], [employment_type], [description] and [location], so that
    each has the fields from which [rank_jobs] builds its text; the records
    that existed before the call are untouched. *)
Theorem fetch_jobs_records api_key query location max_jobs w :
  exists jobs w',
    fetch_jobs requests_get api_key query location max_jobs w = (inr jobs, w') /\
    NoDup jobs /\
    (forall l, l ∈ jobs ->
       (l ∉ dom (heap w)) /\ dom (deref w' l) = job_keys /\
       has_text_fields w' l) /\
    (forall l, l ∈ dom (heap w) -> heap w' !! l = heap w !! l).
Proof. apply fetch_jobs_fields. Qed.

(** X17. [fetch_jobs] saves what it returns: after a call that returns a
    list that is not empty, the file [jsearch_jobs_data.csv] holds exactly
    the records returned, in order; after a call that returns the empty
    list the files are as before. *)
Theorem fetch_jobs_saves_result api_key query location max_jobs w :
  exists jobs w',
    fetch_jobs requests_get api_key query location max_jobs w = (inr jobs, w') /\
    files w' = match jobs with
               | [] => files w
               | _ => <[default_jobs_file := rows_of (heap w') jobs]> (files w)
               end.
Proof.
  destruct (fetch_jobs_run api_key query location max_jobs w)
    as (created & h' & msg & Hrun & _).
  simpl in Hrun. eexists _, _. split; [exact Hrun|]. done.
Qed.

(** X18. When no record is asked for, or the first request fails, is
    answered with a status other than 200, or brings no record,
    [fetch_jobs] returns the empty list: it creates no record and writes no
    file, it only prints. *)
Theorem fetch_jobs_nothing_fetched api_key query location max_jobs w :
  (max_jobs <= 0)%Z \/
  requests_get api_key query location 1 = RequestError \/
  (exists code data,
     requests_get api_key query location 1 = Response code data /\
     (code <> 200%Z \/ data = [])) ->
  exists out,
    fetch_jobs requests_get api_key query location max_jobs w
    = (inr [], World (heap w) (files w) (stdout w ++ out) (batch_calls w)).
Proof.
  intros Hcase.
  assert (Hnone : fetched (fetch_pages (requests_get api_key query location)
                             max_jobs fetch_start) = []).
  { rewrite fetch_pages_unfold. unfold fetch_step.
    destruct (Z.ltb_spec (Z.of_nat (length (fetched fetch_start))) max_jobs)
      as [Hlt|Hge]; [|done].
    simpl in Hlt. change (page fetch_start) with 1%Z.
    destruct Hcase as [Hle|[->|(code & data & -> & Hbad)]]; [lia|done|].
    destruct (Z.eqb_spec code 200) as [->|Hne]; simpl; [|done].
    destruct Hbad as [Hc | ->]; done. }
  unfold fetch_jobs.
  set (st := fetch_pages _ max_jobs fetch_start) in *.
  unfold bind at 1. rewrite for_each_print. unfold bind at 1.
  rewrite Hnone. simpl.
  assert (Hs : slice_to (@nil loc) max_jobs = []).
  { unfold slice_to. destruct (0 <=? max_jobs)%Z; apply take_nil. }
  rewrite Hs. unfold bind, print. simpl.
  exists (printed st ++ ["No jobs fetched from API."]). by rewrite <- app_assoc.
Qed.

(** *** Pages that bring enough records *)

Lemma fetch_pages_full get max_jobs pages rows st :
  (forall i data, pages !! i = Some data ->
     get (page st + Z.of_nat i)%Z = Response 200 data) ->
  Forall (fun data => data <> []) pages ->
  Forall2 (Forall2 (fun job r => convert_job job = inr r)) pages rows ->
  (forall k, (k < length pages)%nat ->
     (Z.of_nat (length (fetched st) + length (concat (take k rows))) < max_jobs)%Z) ->
  (max_jobs <= Z.of_nat (length (fetched st) + length (concat rows)))%Z ->
  fetch_pages get max_jobs st
  = FetchState (fetched st ++ concat rows) (page st + Z.of_nat (length pages))
      (requested st ++ seqZ (page st) (Z.of_nat (length pages))) (printed st).
Proof.
  intros Hget Hne Hconv. revert st Hget.
  induction Hconv as [|data r pages rows Hdr Hrest IH]; intros st Hget Hless Hmax.
  - simpl in *. rewrite fetch_pages_nothing_wanted by lia.
    destruct st. simpl. by rewrite !app_nil_r, Z.add_0_r.
  - inversion Hne as [|? ? Hdata Hne']; subst.
    rewrite fetch_pages_unfold. unfold fetch_step.
    pose proof (Hless 0%nat ltac:(simpl; lia)) as H0. simpl in H0.
    rewrite Nat.add_0_r in H0.
    rewrite (proj2 (Z.ltb_lt _ _) H0).
    pose proof (Hget 0%nat data eq_refl) as Hg. rewrite Z.add_0_r in Hg.
    rewrite Hg. simpl negb. cbv iota.
    destruct data as [|job data]; [done|].
    rewrite (convert_page_all (fetched st) (job :: data) r Hdr).
    destruct (Z.leb_spec max_jobs (Z.of_nat (length (fetched st ++ r)))) as [Hstop|Hgo].
    + destruct pages as [|data2 pages].
      * inversion Hrest; subst. simpl. by rewrite app_nil_r.
      * exfalso. pose proof (Hless 1%nat ltac:(simpl; lia)) as H1.
        simpl in H1. rewrite app_nil_r in H1. rewrite length_app in Hstop. lia.
    + set (next := FetchState _ _ _ _).
      rewrite (IH Hne' next).
      * simpl. rewrite <- !app_assoc. f_equal; [lia|].
        f_equal. rewrite Nat2Z.inj_succ.
        replace (Z.succ (Z.of_nat (length pages)))
          with (1 + Z.of_nat (length pages))%Z by lia.
        by rewrite seqZ_app by lia.
      * intros i d Hi. simpl.
        replace (page st + 1 + Z.of_nat i)%Z with (page st + Z.of_nat (S i))%Z by lia.
        by apply Hget.
      * intros k Hk. simpl. rewrite length_app.
        pose proof (Hless (S k) ltac:(simpl; lia)) as Hk'. simpl in Hk'.
        rewrite length_app in Hk'. lia.
      * simpl. rewrite length_app. simpl in Hmax. rewrite length_app in Hmax. lia.
Qed.

(** X19. When the pages 1, 2, ... of the service, taken as far as they
    are needed, each bring records that can be converted, and together
    bring at least [max_jobs] records, [fetch_jobs] asks for exactly these
    pages and returns the first [max_jobs] records they bring, converted,
    in the order of the service. *)
Theorem fetch_jobs_first_records api_key query location max_jobs w
    (pages rows : list (list pydict)) :
  (forall i data, pages !! i = Some data ->
     requests_get api_key query location (1 + Z.of_nat i)%Z = Response 200 data) ->
  Forall (fun data => data <> []) pages ->
  Forall2 (Forall2 (fun job r => convert_job job = inr r)) pages rows ->
  (forall k, (k < length pages)%nat ->
     (Z.of_nat (length (concat (take k rows))) < max_jobs)%Z) ->
  (max_jobs <= Z.of_nat (length (concat rows)))%Z ->
  exists jobs w',
    fetch_jobs requests_get api_key query location max_jobs w = (inr jobs, w') /\
    rows_of (heap w') jobs = take (Z.to_nat max_jobs) (concat rows) /\
    requested (fetch_pages (requests_get api_key query location) max_jobs
                 fetch_start)
    = seqZ 1 (Z.of_nat (length pages)).
Proof.
  intros Hget Hne Hconv Hless Hmax.
  destruct (fetch_jobs_run api_key query location max_jobs w)
    as (created & h' & msg & Hrun & _ & _ & Hheld & _).
  simpl in Hrun. eexists _, _. split; [exact Hrun|].
  rewrite (fetch_pages_full _ max_jobs pages rows fetch_start) in *
    by (simpl; auto).
  simpl in *. split; [|done].
  assert (Hrows : rows_of h' created = concat rows).
  { unfold rows_of. clear -Hheld.
    induction Hheld as [|l d ls ds Hl _ IH]; simpl; [done|].
    by rewrite Hl, IH. }
  unfold slice_to.
  destruct (Z.leb_spec 0 max_jobs) as [Hpos|Hneg].
  - unfold rows_of in *. by rewrite <- Hrows, <- firstn_map.
  - assert (rows = []) as ->.
    { destruct Hconv as [|d r ps rs]; [done|].
      specialize (Hless 0%nat ltac:(simpl; lia)). simpl in Hless. lia. }
    simpl in *. destruct created; [|done]. by rewrite !take_nil.
Qed.

End FetchJobsFacts.

(** ** Embedding of texts, text of documents *)

Section TextFacts.
Import PyStr.

(** X20. [HFEmbeddingService.get_embedding] gives nothing exactly for
    the texts made of white space only (the empty text among them), and
    the vector of the model for every other text. *)
Theorem hf_get_embedding_blank (model : SentenceTransformer) (text : string) :
  get_embedding (HFEmbeddingService model) text
  = if all_space text then None else Some (encode model text).
Proof.
  simpl. destruct (all_space text) eqn:E.
  - apply strip_empty_iff in E. by rewrite E.
  - destruct (strip text) eqn:Es; [|done].
    apply strip_empty_iff in Es. congruence.
Qed.

Lemma all_space_app a b : all_space (a +:+ b) = all_space a && all_space b.
Proof.
  induction a as [|c a IH]; simpl; [done|]. rewrite IH. by rewrite andb_assoc.
Qed.

Lemma all_space_pages pages acc :
  all_space
    (fold_left
       (fun text page_text =>
          match page_text with
          | Some (String c s) => text +:+ String c s +:+ newline
          | _ => text
          end)
       pages acc) = true
  <-> all_space acc = true /\ Forall blank_page pages.
Proof.
  revert acc. induction pages as [|p pages IH]; intros acc; simpl.
  - split; [by intros H; split | by intros [H _]].
  - rewrite IH. destruct p as [[|c s]|]; simpl.
    + split; intros [Ha Hp]; split; try done.
      * by constructor.
      * by inversion Hp.
    + rewrite !all_space_app. simpl. rewrite andb_true_r.
      split.
      * intros [Ha Hp]. apply andb_true_iff in Ha as [Ha Hcs].
        split; [done|]. by constructor.
      * intros [Ha Hp]. inversion Hp as [|? ? Hcs Hrest]; subst.
        simpl in Hcs. split; [|done]. by rewrite Ha, Hcs.
    + split; intros [Ha Hp]; split; try done.
      * by constructor.
      * by inversion Hp.
Qed.

Lemma extract_text_empty (pages : list (option string)) :
  extract_text_from_pdf pages = EmptyString <-> Forall blank_page pages.
Proof.
  unfold extract_text_from_pdf. rewrite strip_empty_iff, all_space_pages.
  simpl. tauto.
Qed.

(** X21. The text extracted from a document is empty exactly when every
    page gives no text or white space only. *)
Theorem extract_text_empty_iff (pages : list (option string)) :
  extract_text_from_pdf pages = EmptyString <-> Forall blank_page pages.
Proof. apply extract_text_empty. Qed.

(** X22. The embedding of the text of a document with the Hugging Face
    service is missing exactly when every page is blank; it is the vector
    of the model for the extracted text otherwise. *)
Theorem embedding_of_extracted_text (model : SentenceTransformer)
    (pages : list (option string)) :
  (Forall blank_page pages ->
   get_embedding (HFEmbeddingService model) (extract_text_from_pdf pages) = None) /\
  (~ Forall blank_page pages ->
   get_embedding (HFEmbeddingService model) (extract_text_from_pdf pages)
   = Some (encode model (extract_text_from_pdf pages))).
Proof.
  simpl. unfold extract_text_from_pdf at 1 3. rewrite strip_idempotent.
  fold (extract_text_from_pdf pages). split.
  - intros H. apply extract_text_empty in H. by rewrite H.
  - intros H. destruct (extract_text_from_pdf pages) eqn:E; [|done].
    exfalso. apply H. by apply extract_text_empty.
Qed.

Lemma embedding_of_extracted_text_witness :
  get_embedding (HFEmbeddingService sample_model)
    (extract_text_from_pdf [None; Some "  "; Some EmptyString]) = None /\
  get_embedding (HFEmbeddingService sample_model)
    (extract_text_from_pdf [None; Some " John Doe "])
  = Some (encode sample_model (extract_text_from_pdf [None; Some " John Doe "])).
Proof.
  split.
  - apply (proj1 (embedding_of_extracted_text sample_model
                    [None; Some "  "; Some EmptyString])).
    repeat constructor.
  - apply (proj2 (embedding_of_extracted_text sample_model
                    [None; Some " John Doe "])).
    intros H. inversion H as [|? ? _ H2]; subst.
    inversion H2 as [|? ? Hb _]; subst. simpl in Hb. discriminate Hb.
Defined.

End TextFacts.

(** ** Fetching, then ranking *)

Section PipelineFacts.
Context (float_repr : R -> string) (default_model : SentenceTransformer).
Context (requests_get : string -> string -> string -> Z -> http_response).

(** X23. The records that [fetch_jobs] returns can be ranked as they
    are: with a service that answers with one vector of the reference's
    dimension for each of them, [rank_jobs] returns normally, from among
    the records fetched, and the records that existed before the two calls
    are untouched. *)
Theorem fetched_jobs_can_be_ranked api_key query location max_jobs
    resume top_n svc csv w :
  exists jobs w1,
    fetch_jobs requests_get api_key query location max_jobs w = (inr jobs, w1) /\
    (jobs <> [] ->
     Forall (fun e => length e = length resume)
       (batch_result float_repr svc w1 jobs) ->
     length (batch_result float_repr svc w1 jobs) = length jobs ->
     exists res w2,
       rank_jobs float_repr default_model resume jobs top_n (Some svc) csv w1
       = (inr res, w2) /\
       (forall l, l ∈ res -> l ∈ jobs) /\
       (forall l, l ∈ dom (heap w) -> heap w2 !! l = heap w !! l)).
Proof.
  destruct (fetch_jobs_fields requests_get api_key query location max_jobs w)
    as (jobs & w1 & Hfetch & Hnd & Hnew & Hold).
  exists jobs, w1. split; [done|]. intros Hne Hdim Hlen.
  assert (Hfields : Forall (has_text_fields w1) jobs).
  { apply Forall_forall. intros l Hl. by apply Hnew. }
  destruct (rank_jobs_ok float_repr default_model resume jobs top_n svc csv w1)
    as (h' & ranked & msg & Hrun & (Hperm & _) & Hout & _);
    [done | done | done | lia |].
  eexists _, _. split; [exact Hrun|]. simpl. split.
  - intros l Hl. apply slice_to_subseteq in Hl. by rewrite Hperm.
  - intros l Hl. rewrite Hout; [by apply Hold|].
    intros Hin. by apply (Hnew l Hin).
Qed.

End PipelineFacts.

(** ** The further properties on the sample data *)

Section MoreSamples.
Local Open Scope R_scope.

Local Ltac sample_fields :=
  repeat first [ apply Forall_cons; split | apply Forall_nil ];
  repeat split; eexists; vm_compute; reflexivity.

Local Ltac sample_dims :=
  repeat first [ apply Forall_cons; split | apply Forall_nil ]; reflexivity.

Local Ltac sample_nodup :=
  repeat (apply NoDup_cons; split;
          [ let H := fresh in
            intros H;
            repeat (apply elem_of_cons in H as [H|H]; [discriminate H|]);
            by apply elem_of_nil in H
          | ]);
  apply NoDup_nil_2.

Lemma rank_jobs_one_batch_call_witness :
  batch_calls (snd (rank_jobs sample_float_repr sample_model [1; 0; 0]
                      [1%positive; 3%positive] 50%Z (Some MockEmbeddingService)
                      "ranked_jobs.csv" sample_world))
  = batch_calls sample_world /\
  batch_calls (snd (rank_jobs sample_float_repr sample_model [1; 0; 0]
                      [1%positive; 2%positive] 50%Z (Some MockEmbeddingService)
                      "ranked_jobs.csv" sample_world))
  = batch_calls sample_world
    ++ [map (text_of sample_float_repr sample_world) [1%positive; 2%positive]].
Proof.
  split.
  - apply (proj1 (rank_jobs_one_batch_call sample_float_repr sample_model
                    [1; 0; 0] [1%positive; 3%positive] 50%Z MockEmbeddingService
                    "ranked_jobs.csv" sample_world)).
    right. apply Exists_cons_tl, Exists_cons_hd.
    intros (_ & [c Hc] & _). vm_compute in Hc. discriminate Hc.
  - apply (proj2 (rank_jobs_one_batch_call sample_float_repr sample_model
                    [1; 0; 0] [1%positive; 2%positive] 50%Z MockEmbeddingService
                    "ranked_jobs.csv" sample_world)).
    + discriminate.
    + sample_fields.
Defined.

Lemma rank_jobs_dimension_mismatch_witness :
  exists w',
    rank_jobs sample_float_repr sample_model [1; 0; 0]
      [1%positive; 2%positive] 50%Z (Some (fixed_service [[1; 0; 0]; [1; 0]]))
      "ranked_jobs.csv" sample_world
    = (inl ValueError, w') /\
    files w' = files sample_world /\
    (forall l', l' ∈ [(1%positive, [1; 0; 0])].*1 ->
       exists x, heap w' !! l'
                 = Some (<["similarity_score" := VFloat x]> (deref sample_world l'))) /\
    (forall l', l' ∉ [(1%positive, [1; 0; 0])].*1 ->
       heap w' !! l' = heap sample_world !! l').
Proof.
  apply (rank_jobs_dimension_mismatch sample_float_repr sample_model
           [1; 0; 0] [1%positive; 2%positive] 50%Z
           (fixed_service [[1; 0; 0]; [1; 0]]) "ranked_jobs.csv" sample_world
           [(1%positive, [1; 0; 0])] 2%positive [1; 0] []).
  - discriminate.
  - sample_fields.
  - reflexivity.
  - sample_dims.
  - simpl. lia.
Defined.

Lemma rank_jobs_scores_are_positional_witness :
  exists res w',
    rank_jobs sample_float_repr sample_model [1; 0; 0]
      [1%positive; 2%positive] 50%Z (Some MockEmbeddingService)
      "ranked_jobs.csv" sample_world
    = (inr res, w') /\
    forall i l e,
      [1%positive; 2%positive] !! i = Some l ->
      batch_result sample_float_repr MockEmbeddingService sample_world
        [1%positive; 2%positive] !! i = Some e ->
      exists x,
        cosine_similarity [1; 0; 0] e = inr x /\
        deref w' l !! "similarity_score" = Some (VFloat x).
Proof.
  apply (rank_jobs_scores_are_positional sample_float_repr sample_model
           [1; 0; 0] [1%positive; 2%positive] 50%Z MockEmbeddingService
           "ranked_jobs.csv" sample_world).
  - discriminate.
  - sample_nodup.
  - sample_fields.
  - sample_dims.
  - reflexivity.
Defined.


Lemma rank_jobs_zero_top_n_witness :
  exists w',
    rank_jobs sample_float_repr sample_model [1; 0; 0]
      [1%positive; 2%positive] 0%Z (Some MockEmbeddingService)
      "ranked_jobs.csv" sample_world
    = (inr [], w') /\
    files w' = files sample_world /\
    batch_calls w'
    = batch_calls sample_world
      ++ [map (text_of sample_float_repr sample_world) [1%positive; 2%positive]] /\
    forall l, l ∈ [1%positive; 2%positive] ->
      exists x, heap w' !! l
                = Some (<["similarity_score" := VFloat x]> (deref sample_world l)).
Proof.
  apply (rank_jobs_zero_top_n sample_float_repr sample_model
           [1; 0; 0] [1%positive; 2%positive] MockEmbeddingService
           "ranked_jobs.csv" sample_world).
  - discriminate.
  - sample_fields.
  - sample_dims.
  - reflexivity.
Defined.

Lemma rank_jobs_ties_keep_input_order_witness :
  exists w',
    rank_jobs sample_float_repr sample_model [1; 0; 0]
      [2%positive; 1%positive; 4%positive] (Z.of_nat 2) (Some MockEmbeddingService)
      "test_ranked_jobs.csv" sample_world
    = (inr (take 2 [2%positive; 1%positive; 4%positive]), w').
Proof.
  apply (rank_jobs_ties_keep_input_order sample_float_repr sample_model
           [1; 0; 0] [2%positive; 1%positive; 4%positive] 2 MockEmbeddingService
           "test_ranked_jobs.csv" sample_world [1; 0; 0]).
  - discriminate.
  - sample_fields.
  - sample_dims.
  - reflexivity.
  - reflexivity.
Defined.

Lemma rank_jobs_repeatable_witness :
  exists res w1 w2,
    rank_jobs sample_float_repr sample_model [1; 0; 0]
      [1%positive; 2%positive] 50%Z (Some MockEmbeddingService)
      "ranked_jobs.csv" sample_world
    = (inr res, w1) /\
    rank_jobs sample_float_repr sample_model [1; 0; 0]
      [1%positive; 2%positive] 50%Z (Some MockEmbeddingService)
      "ranked_jobs.csv" w1
    = (inr res, w2) /\
    heap w2 = heap w1 /\
    files w2 = files w1.
Proof.
  apply (rank_jobs_repeatable sample_float_repr sample_model
           [1; 0; 0] [1%positive; 2%positive] 50%Z MockEmbeddingService
           "ranked_jobs.csv" sample_world).
  - discriminate.
  - sample_nodup.
  - sample_fields.
  - sample_dims.
  - reflexivity.
Defined.

Lemma fetch_jobs_bounded_witness :
  exists jobs w',
    fetch_jobs sample_api "key" "data scientist" "New York" 2 sample_world
    = (inr jobs, w') /\
    (length jobs <= Z.to_nat 2)%nat /\
    (length (requested (fetch_pages (sample_api "key" "data scientist" "New York")
                          2 fetch_start))
     <= Z.to_nat 2)%nat.
Proof.
  destruct (fetch_jobs_run sample_api "key" "data scientist" "New York" 2
              sample_world) as (created & h' & msg & Hrun & _).
  simpl in Hrun. eexists _, _. split; [exact Hrun|]. split.
  - exact (proj2 (proj2 (fetch_jobs_bounded sample_api "key" "data scientist"
                           "New York" 2 sample_world)) _ _ Hrun).
  - exact (proj1 (proj2 (fetch_jobs_bounded sample_api "key" "data scientist"
                           "New York" 2 sample_world))).
Defined.

Lemma fetch_jobs_nothing_fetched_witness :
  exists out,
    fetch_jobs failing_api "key" "data scientist" "New York" 50 sample_world
    = (inr [], World (heap sample_world) (files sample_world)
                 (stdout sample_world ++ out) (batch_calls sample_world)).
Proof.
  apply (fetch_jobs_nothing_fetched failing_api "key" "data scientist" "New York"
           50 sample_world).
  right. right. exists 503%Z, []. split; [reflexivity|]. left. discriminate.
Defined.

Lemma fetch_jobs_first_records_witness :
  exists jobs w',
    fetch_jobs sample_api "key" "data scientist" "New York" 3 sample_world
    = (inr jobs, w') /\
    rows_of (heap w') jobs
    = take (Z.to_nat 3)
        (concat [[fetched_job "Analyst" "Boston" "US";
                  fetched_job "Engineer" "Paris" "FR"];
                 [fetched_job "Scientist" "Lagos" "NG"]]) /\
    requested (fetch_pages (sample_api "key" "data scientist" "New York") 3
                 fetch_start)
    = seqZ 1 (Z.of_nat
                (length [[api_job "Analyst" "Boston" "US";
                          api_job "Engineer" "Paris" "FR"];
                         [api_job "Scientist" "Lagos" "NG"]])).
Proof.
  apply (fetch_jobs_first_records sample_api "key" "data scientist" "New York"
           3 sample_world
           [[api_job "Analyst" "Boston" "US"; api_job "Engineer" "Paris" "FR"];
            [api_job "Scientist" "Lagos" "NG"]]
           [[fetched_job "Analyst" "Boston" "US";
             fetched_job "Engineer" "Paris" "FR"];
            [fetched_job "Scientist" "Lagos" "NG"]]).
  - intros [|[|i]] data H; simpl in H; inversion H; reflexivity.
  - repeat constructor; discriminate.
  - repeat constructor; vm_compute; reflexivity.
  - intros [|[|k]] Hk; simpl in *; lia.
  - simpl. lia.
Defined.

Lemma fetched_jobs_can_be_ranked_witness :
  exists jobs w1,
    fetch_jobs sample_api "key" "data scientist" "New York" 50 sample_world
    = (inr jobs, w1) /\
    exists res w2,
      rank_jobs sample_float_repr sample_model [1; 0; 0] jobs 50%Z
        (Some MockEmbeddingService) "ranked_jobs.csv" w1
      = (inr res, w2) /\
      (forall l, l ∈ res -> l ∈ jobs) /\
      (forall l, l ∈ dom (heap sample_world) ->
         heap w2 !! l = heap sample_world !! l).
Proof.
  destruct (fetched_jobs_can_be_ranked sample_float_repr sample_model sample_api
              "key" "data scientist" "New York" 50%Z [1; 0; 0] 50%Z
              MockEmbeddingService "ranked_jobs.csv" sample_world)
    as (jobs & w1 & Hfetch & Hrank).
  exists jobs, w1. split; [exact Hfetch|]. apply Hrank.
  - apply (f_equal fst) in Hfetch. vm_compute in Hfetch.
    intros ->. discriminate Hfetch.
  - unfold batch_result. simpl.
    apply Forall_forall. intros e He. apply list_elem_of_fmap in He.
    by destruct He as (? & -> & _).
  - unfold batch_result. simpl. by rewrite !length_map.
Defined.

Lemma rank_jobs_with_mock_witness :
  (exists c w',
     cosine_similarity [0; 1; 0] [1; 0; 0] = inr c /\
     rank_jobs sample_float_repr sample_model [0; 1; 0]
       [2%positive; 1%positive; 4%positive] (Z.of_nat 2)
       (Some MockEmbeddingService) "test_ranked_jobs.csv" sample_world
     = (inr (take 2 [2%positive; 1%positive; 4%positive]), w') /\
     forall l, l ∈ [2%positive; 1%positive; 4%positive] ->
       deref w' l !! "similarity_score" = Some (VFloat c)) /\
  (exists w',
     rank_jobs sample_float_repr sample_model [1; 0]
       [2%positive; 1%positive; 4%positive] (Z.of_nat 2)
       (Some MockEmbeddingService) "test_ranked_jobs.csv" sample_world
     = (inl ValueError, w') /\
     heap w' = heap sample_world /\
     files w' = files sample_world).
Proof.
  split.
  - apply (proj1 (rank_jobs_with_mock sample_float_repr sample_model [0; 1; 0]
                    [2%positive; 1%positive; 4%positive] 2
                    "test_ranked_jobs.csv" sample_world
                    ltac:(discriminate) ltac:(sample_fields))).
    reflexivity.
  - apply (proj2 (rank_jobs_with_mock sample_float_repr sample_model [1; 0]
                    [2%positive; 1%positive; 4%positive] 2
                    "test_ranked_jobs.csv" sample_world
                    ltac:(discriminate) ltac:(sample_fields))).
    simpl. lia.
Defined.

End MoreSamples.
